(** * The JSON query builder: [Search] of querybuilder/search.py

    A shallow embedding of the [Search] class, which compiles a JSON-shaped
    filter and ordering specification into an SQLAlchemy query, and the
    properties of its compiler.

    Python values are an inductive type of JSON-shaped data; a [dict] is an
    association list in insertion order, because the compiler dispatches on
    the first key.  Methods are computations in a state-and-exception monad
    whose state is the [Search] object together with a trace of the calls
    made to the external collaborators (class loader, [Criterion], query
    backend). *)

From Stdlib Require Import String Ascii List ZArith Lia Bool.
Import ListNotations.
Open Scope string_scope.
Open Scope list_scope.
Set Warnings "-register-all".

(** ** Python [str] operations used by the source *)

Module PyStr.

(** [s.startswith(c)] for a one-character [c]. *)
Definition startswith (c : ascii) (s : string) : bool :=
  match s with
  | String a _ => Ascii.eqb a c
  | EmptyString => false
  end.

(** [s.replace(c, '', 1)]: the first occurrence of [c], wherever it is,
    is deleted. *)
Fixpoint replace_first (c : ascii) (s : string) : string :=
  match s with
  | EmptyString => EmptyString
  | String a t => if Ascii.eqb a c then t else String a (replace_first c t)
  end.

(** [s.rindex(c)]: the highest index of [c]; [None] stands for the
    [ValueError] Python raises when [c] does not occur. *)
Fixpoint rindex (c : ascii) (s : string) : option nat :=
  match s with
  | EmptyString => None
  | String a t =>
      match rindex c t with
      | Some i => Some (S i)
      | None => if Ascii.eqb a c then Some 0 else None
      end
  end.

(** [s[:i]] and [s[i:]] for [0 <= i]. *)
Definition slice_to (i : nat) (s : string) : string := substring 0 i s.
Definition slice_from (i : nat) (s : string) : string :=
  substring i (String.length s - i) s.

(** [c in s]. *)
Fixpoint contains (c : ascii) (s : string) : bool :=
  match s with
  | EmptyString => false
  | String a t => Ascii.eqb a c || contains c t
  end.

(** Iterating a [str] yields its one-character substrings. *)
Fixpoint chars (s : string) : list string :=
  match s with
  | EmptyString => []
  | String a t => String a EmptyString :: chars t
  end.

End PyStr.

Definition dot : ascii := "."%char.
Definition dash : ascii := "-"%char.

(** ** Python values *)

(** The values a decoded JSON document is made of.  A [dict] keeps its
    entries in insertion order and its keys are strings; the keys of a
    dict are distinct, and a lookup takes the first entry of a key. *)
Inductive value : Type :=
| VNone
| VBool (b : bool)
| VInt (n : Z)
| VStr (s : string)
| VList (items : list value)
| VDict (entries : list (string * value)).

(** [d[k]] on the entries of a dict; [None] stands for [KeyError]. *)
Fixpoint dict_lookup (d : list (string * value)) (k : string) : option value :=
  match d with
  | [] => None
  | (k', v) :: t => if String.eqb k' k then Some v else dict_lookup t k
  end.

(** [dict_lookup] with a function applied to the entry found. *)
Definition dict_lookup_with {B : Type} (f : value -> B)
  : list (string * value) -> string -> option B :=
  fix go (d : list (string * value)) (k : string) : option B :=
    match d with
    | [] => None
    | (k', v) :: t => if String.eqb k' k then Some (f v) else go t k
    end.

(** [list(d.keys())]. *)
Definition dict_keys (d : list (string * value)) : list string := map fst d.

(** ** The query backend: classes, predicates, queries *)

(** A model class as the loader returns it: its qualified name and the
    attributes [getattr] finds on it. *)
Record class : Type := mkClass { cls_name : string; cls_attrs : list string }.

(** Compiled predicates.  [Compare] and [Relate] are what
    [Criterion(...).eval()] yields on a literal and on a nested predicate;
    [and_] and [or_] are SQLAlchemy's n-ary conjunctions. *)
Inductive expr : Type :=
| Compare (m_cls : class) (field_name : string) (operator : string) (literal : value)
| Relate (m_cls : class) (field_name : string) (operator : string) (inner : expr)
| and_ (clauses : list expr)
| or_ (clauses : list expr).

(** The [field_value] handed to [Criterion]: the literal of the
    specification, or the predicate compiled from a nested criterion. *)
Inductive operand : Type :=
| Literal (v : value)
| Compiled (e : expr).

(** What [__build_expressions__] returns: one expression (a combinator) or
    a Python list of expressions (a leaf). *)
Inductive compiled : Type :=
| Single (e : expr)
| Listed (l : list expr).

Inductive direction : Type := asc | desc.

Record order_expr : Type :=
  mkOrder { ord_cls : class; ord_field : string; ord_dir : direction }.

Definition row : Type := list (string * value).

(** The session: given entities, criteria and ordering it yields the rows
    of the query, all of them and in order. *)
Record Session : Type :=
  mkSession { fetch : list class -> list expr -> list order_expr -> list row }.

Record Query : Type := mkQuery {
  q_session : Session;
  q_entities : list class;
  q_criteria : list expr;
  q_order : list order_expr;
  q_window : option (Z * Z)
}.

(** ** Exceptions, the [Search] object and the monad *)

Inductive ErrorCode : Type := INVALID_FIELD.

Inductive exn : Type :=
| AttributeError
| ValueError
| KeyError (key : string)
| IndexError
| TypeError
| ImportError
| ArgumentError
| UnknownOperator (operator : value)
| SqlAlchemyException (code : ErrorCode) (fields : list value).

Inductive Res (A : Type) : Type :=
| Ok (a : A)
| Raise (e : exn).
Arguments Ok {A} a.
Arguments Raise {A} e.

Record Search : Type := mkSearch {
  model_classes : list class;
  filter_by : value;
  order_by : list string;
  page : Z;
  per_page : Z;
  all : bool;
  window_size : option Z;
  session : Session;
  model_module : string
}.

(** Calls to the external collaborators, in the order they are made. *)
Inductive event : Type :=
| EvLoadClass (qualname : string)
| EvCriterion (m_cls : class) (field_name : string) (field_value : operand) (operator : value)
| EvCount (q : Query)
| EvAll (q : Query).

Record State : Type := mkState { self : Search; trace : list event }.

Definition M (A : Type) : Type := State -> Res A * State.

Definition ret {A : Type} (a : A) : M A := fun st => (Ok a, st).

Definition raise {A : Type} (e : exn) : M A := fun st => (Raise e, st).

Definition bind {A B : Type} (m : M A) (f : A -> M B) : M B :=
  fun st =>
    match m st with
    | (Ok a, st') => f a st'
    | (Raise e, st') => (Raise e, st')
    end.

Declare Scope py_scope.
Delimit Scope py_scope with py.
Notation "x <- m ;; k" := (bind m (fun x => k))
  (at level 61, m at next level, right associativity) : py_scope.
Notation "' p <- m ;; k" := (bind m (fun p => k))
  (at level 61, p pattern, m at next level, right associativity) : py_scope.
Open Scope py_scope.

Definition get_self : M Search := fun st => (Ok (self st), st).

Definition tell (ev : event) : M unit :=
  fun st => (Ok tt, mkState (self st) (trace st ++ [ev])).

Definition lift {A : Type} (r : Res A) : M A := fun st => (r, st).

Definition of_option {A : Type} (e : exn) (o : option A) : M A :=
  match o with
  | Some a => ret a
  | None => raise e
  end.

(** [try: body except AttributeError: handler]. *)
Definition try_except_AttributeError {A : Type} (body handler : M A) : M A :=
  fun st =>
    match body st with
    | (Raise AttributeError, st') => handler st'
    | r => r
    end.

(** [d[k]], raising [KeyError]. *)
Definition getitem (d : list (string * value)) (k : string) : M value :=
  of_option (KeyError k) (dict_lookup d k).

(** [v.get(k, default)]: only a dict has the method. *)
Definition py_get (v : value) (k : string) (default : value) : M value :=
  match v with
  | VDict d =>
      ret match dict_lookup d k with Some x => x | None => default end
  | _ => raise AttributeError
  end.

(** Lines 82-83 of [__eval_criterion__], and lines 126-127 of [query]:
    [name[:name.rindex('.')]] and [name[name.rindex('.')+1:]]. *)
Definition split_at_last_dot (name : string) : option (string * string) :=
  match PyStr.rindex dot name with
  | Some i => Some (PyStr.slice_to i name, PyStr.slice_from (i + 1) name)
  | None => None
  end.

(** The same on a Python value: only a [str] has [rindex]. *)
Definition split_field_name (field_name : value) : M (string * string) :=
  match field_name with
  | VStr s => of_option ValueError (split_at_last_dot s)
  | _ => raise AttributeError
  end.

(** ['{}.{}'.format(module, name)]. *)
Definition qualified (module name : string) : string :=
  (module ++ "." ++ name)%string.

(** ** The methods of [Search] *)

Section Methods.

(** [commons.load_class] and [Criterion(...).eval()] live outside
    search.py: the methods are parameterised by them. *)
Variable load_class : string -> Res class.
Variable Criterion_eval : class -> string -> operand -> value -> Res expr.

Definition call_load_class (qualname : string) : M class :=
  _ <- tell (EvLoadClass qualname) ;;
  lift (load_class qualname).

Definition call_Criterion (m_cls : class) (field_name : string)
    (field_value : operand) (operator : value) : M expr :=
  _ <- tell (EvCriterion m_cls field_name field_value operator) ;;
  lift (Criterion_eval m_cls field_name field_value operator).

(** [Search.__eval_criterion__].  The recursion is on [field_value]: the
    nested criterion is reached through the lookup of ["field_value"] in
    the mapping, and the three subscripts are evaluated in the order of the
    call, before the call.  [eval_criterion_unfold] below gives the same
    body with plain lookups. *)
Fixpoint eval_criterion (field_name field_value operator : value)
    {struct field_value} : M expr :=
  '(m_cls_name, attr) <- split_field_name field_name ;;
  s <- get_self ;;
  m_cls <- call_load_class (qualified (model_module s) m_cls_name) ;;
  field_value' <-
    match field_value with
    | VDict d =>
        inner_name <- getitem d "field_name" ;;
        inner_call <- of_option (KeyError "field_value")
                        (dict_lookup_with
                           (fun v name op => eval_criterion name v op)
                           d "field_value") ;;
        inner_operator <- getitem d "operator" ;;
        e <- inner_call inner_name inner_operator ;;
        ret (Compiled e)
    | v => ret (Literal v)
    end ;;
  call_Criterion m_cls attr field_value' operator.

(** The body of the loop of [__eval_criteria__]: one criterion inside
    [try ... except AttributeError]. *)
Definition eval_criteria_step (criterion : value)
    (acc : list expr * list value) : M (list expr * list value) :=
  let '(expressions, error_fields) := acc in
  try_except_AttributeError
    (field_name <- py_get criterion "field_name" VNone ;;
     field_value <- py_get criterion "field_value" VNone ;;
     operator <- py_get criterion "operator" VNone ;;
     evaluated_criterion <- eval_criterion field_name field_value operator ;;
     ret (expressions ++ [evaluated_criterion], error_fields))
    (name <- py_get criterion "field_name" (VStr "unknown") ;;
     ret (expressions, error_fields ++ [name])).

Fixpoint eval_criteria_loop (criteria : list value)
    (acc : list expr * list value) : M (list expr * list value) :=
  match criteria with
  | [] => ret acc
  | criterion :: rest =>
      acc' <- eval_criteria_step criterion acc ;;
      eval_criteria_loop rest acc'
  end.

(** [Search.__eval_criteria__]: anything that is not a list is wrapped
    into a one-element list. *)
Definition eval_criteria (criteria : value) : M (list expr * list value) :=
  let criteria := match criteria with VList l => l | c => [c] end in
  eval_criteria_loop criteria ([], []).

(** Modelled from the spec: the exception helpers are not part of
    search.py; [ExceptionBuilder(SqlAlchemyException).error(code,
    *fields).throw()] raises one exception that carries the error code and
    every field it was given. *)
Definition throw_error {A : Type} (code : ErrorCode) (fields : list value)
  : M A :=
  raise (SqlAlchemyException code fields).

(** The [else] branch of [__build_expressions__], lines 150-154. *)
Definition build_leaf (filter_by : value) : M compiled :=
  '(expressions, error_fields) <- eval_criteria filter_by ;;
  if (0 <? length error_fields)%nat
  then throw_error INVALID_FIELD error_fields
  else ret (Listed expressions).

(** [subqueries.extend(subquery) if isinstance(subquery, list) else
    subqueries.append(subquery)]. *)
Definition extend_or_append (subqueries : list expr) (subquery : compiled)
  : list expr :=
  match subquery with
  | Listed l => subqueries ++ l
  | Single e => subqueries ++ [e]
  end.

(** [Search.__build_sql_sequence__], with the recursive call to
    [__build_expressions__] as [build] and the list [subqueries] as the
    accumulator of the loop. *)
Definition build_sql_sequence_from (build : value -> M compiled)
    (func : list expr -> expr) : list value -> list expr -> M compiled :=
  fix loop (node : list value) (subqueries : list expr) : M compiled :=
    match node with
    | [] => ret (Single (func subqueries))
    | value :: rest =>
        subquery <- build value ;;
        loop rest (extend_or_append subqueries subquery)
    end.

(** The table [logical_operators] of [__build_expressions__]. *)
Definition logical_operators (operator : string)
  : option (list expr -> expr) :=
  if String.eqb operator "and" then Some and_
  else if String.eqb operator "or" then Some or_
  else None.

(** What [__build_expressions__] does on a [str]: it has no [keys]. *)
Definition build_str (_ : value) : M compiled := raise AttributeError.

(** [Search.__build_expressions__].  A list is first turned into
    [{'and': list}], whose first key is ['and'].  The node of a combinator
    is iterated: a list yields its items, a dict its keys and a [str] its
    characters, which are [str] objects; anything else is not iterable.
    [build_expressions_combinator] below states the combinator branch as
    the call of [build_sql_sequence] it is in the source. *)
Fixpoint build_expressions (filter_by : value) : M compiled :=
  match filter_by with
  | VList l => build_sql_sequence_from build_expressions and_ l []
  | VDict [] => raise IndexError
  | VDict ((operator, node) :: _) =>
      match logical_operators operator with
      | Some func =>
          match node with
          | VList l => build_sql_sequence_from build_expressions func l []
          | VDict d =>
              build_sql_sequence_from build_str func
                (map VStr (dict_keys d)) []
          | VStr s =>
              build_sql_sequence_from build_str func
                (map VStr (PyStr.chars s)) []
          | _ => raise TypeError
          end
      | None => build_leaf filter_by
      end
  | _ => raise AttributeError
  end.

(** [for value in node], as a list of values. *)
Definition py_iter (node : value) : M (list value) :=
  match node with
  | VList l => ret l
  | VDict d => ret (map VStr (dict_keys d))
  | VStr s => ret (map VStr (PyStr.chars s))
  | _ => raise TypeError
  end.

(** [Search.__build_sql_sequence__]. *)
Definition build_sql_sequence (node : value) (func : list expr -> expr)
  : M compiled :=
  items <- py_iter node ;;
  build_sql_sequence_from build_expressions func items [].

(** *** The query object *)

Definition Session_query (s : Session) (entities : list class) : Query :=
  mkQuery s entities [] [] None.

Definition Query_filter (q : Query) (criteria : list expr) : Query :=
  mkQuery (q_session q) (q_entities q) (q_criteria q ++ criteria)
          (q_order q) (q_window q).

Definition Query_order_by (q : Query) (clauses : list order_expr) : Query :=
  mkQuery (q_session q) (q_entities q) (q_criteria q)
          (q_order q ++ clauses) (q_window q).

(** [Query.slice(start, stop)]: OFFSET [start], LIMIT [stop - start],
    for [0 <= start <= stop]. *)
Definition Query_slice (q : Query) (start stop : Z) : Query :=
  mkQuery (q_session q) (q_entities q) (q_criteria q) (q_order q)
          (Some (start, stop)).

Definition window_rows (w : option (Z * Z)) (rows : list row) : list row :=
  match w with
  | None => rows
  | Some (start, stop) =>
      firstn (Z.to_nat (stop - start)) (skipn (Z.to_nat start) rows)
  end.

Definition Query_rows (q : Query) : list row :=
  window_rows (q_window q)
    (fetch (q_session q) (q_entities q) (q_criteria q) (q_order q)).

Definition Query_count (q : Query) : M Z :=
  _ <- tell (EvCount q) ;;
  ret (Z.of_nat (length (Query_rows q))).

Definition Query_all (q : Query) : M (list row) :=
  _ <- tell (EvAll q) ;;
  ret (Query_rows q).

(** [getattr(m_cls, field_name)]. *)
Definition class_getattr (m_cls : class) (field_name : string)
  : M (class * string) :=
  if existsb (String.eqb field_name) (cls_attrs m_cls)
  then ret (m_cls, field_name)
  else raise AttributeError.

(** [and_(x)], [or_(x)] and [filter(x)] take clauses, not Python lists. *)
Definition as_clause (c : compiled) : M expr :=
  match c with
  | Single e => ret e
  | Listed _ => raise ArgumentError
  end.

(** The body of the ordering loop of [query], lines 124-130. *)
Definition ordering_expression (ordering_criterion : string) : M order_expr :=
  let direction :=
    if PyStr.startswith dash ordering_criterion then desc else asc in
  let model_cls_field_name := PyStr.replace_first dash ordering_criterion in
  '(m_cls_name, field_name) <-
     of_option ValueError (split_at_last_dot model_cls_field_name) ;;
  s <- get_self ;;
  m_cls <- call_load_class (qualified (model_module s) m_cls_name) ;;
  model_field <- class_getattr m_cls field_name ;;
  ret (mkOrder (fst model_field) (snd model_field) direction).

Fixpoint ordering_loop (ordering_criteria : list string)
    (order_by_expressions : list order_expr) : M (list order_expr) :=
  match ordering_criteria with
  | [] => ret order_by_expressions
  | ordering_criterion :: rest =>
      e <- ordering_expression ordering_criterion ;;
      ordering_loop rest (order_by_expressions ++ [e])
  end.

(** [Search.query]. *)
Definition query : M Query :=
  s <- get_self ;;
  let data_query_set := Session_query (session s) (model_classes s) in
  data_query_set <-
    match filter_by s with
    | VList _ =>
        expression <- build_expressions (filter_by s) ;;
        e <- as_clause expression ;;
        ret (Query_filter data_query_set [e])
    | _ =>
        or_filter <- py_get (filter_by s) "or" (VList []) ;;
        and_filter <- py_get (filter_by s) "and" (VList []) ;;
        or_expression <- build_expressions (VDict [("or", or_filter)]) ;;
        and_expression <- build_expressions (VDict [("and", and_filter)]) ;;
        oe <- as_clause or_expression ;;
        ae <- as_clause and_expression ;;
        ret (Query_filter data_query_set [or_ [oe]; and_ [ae]])
    end ;;
  order_by_expressions <- ordering_loop (order_by s) [] ;;
  ret (Query_order_by data_query_set order_by_expressions).

Record results_dict : Type := mkResults { data : list row; count : Z }.

(** [Search.results]. *)
Definition results : M results_dict :=
  query_set <- query ;;
  count <- Query_count query_set ;;
  s <- get_self ;;
  let query_set :=
    if negb (all s)
    then Query_slice query_set (per_page s * (page s - 1))
                     (per_page s * page s)
    else query_set in
  data <- Query_all query_set ;;
  ret (mkResults data count).

End Methods.


(** [eval_criterion] evaluates a nested [field_value] before it builds the
    criterion: this is lines 86-87 as a computation of its own. *)
Definition eval_field_value (load_class : string -> Res class)
    (Criterion_eval : class -> string -> operand -> value -> Res expr)
    (field_value : value) : M operand :=
  match field_value with
  | VDict d =>
      inner_name <- getitem d "field_name" ;;
      inner_value <- getitem d "field_value" ;;
      inner_operator <- getitem d "operator" ;;
      e <- eval_criterion load_class Criterion_eval
             inner_name inner_value inner_operator ;;
      ret (Compiled e)
  | v => ret (Literal v)
  end.

(** ** A model registry and an operator table *)

(** Modelled from the spec: [commons.load_class] is not part of search.py.
    The registry maps a qualified entity name to its descriptor; a name it
    does not hold is a resolution failure, raised as [AttributeError]. *)
Definition registry_load_class (registry : list class) (qualname : string)
  : Res class :=
  match find (fun c => String.eqb (cls_name c) qualname) registry with
  | Some c => Ok c
  | None => Raise AttributeError
  end.

Definition comparison_operators : list string :=
  ["eq"; "contains"; ">"; ">="; "<"; "<="; "startswith"].

Definition relational_operators : list string := ["has"; "any"].

(** Modelled from the spec: the class [Criterion] is not part of search.py.
    [Criterion(m_cls, field_name, field_value, operator).eval()] looks the
    attribute up on the class, failing with [AttributeError], then applies
    the operator table: a comparison operator on a literal, a relational
    operator on a compiled predicate; another operator is fatal. *)
Definition operator_table_eval (m_cls : class) (field_name : string)
    (field_value : operand) (operator : value) : Res expr :=
  if negb (existsb (String.eqb field_name) (cls_attrs m_cls))
  then Raise AttributeError
  else
    match operator, field_value with
    | VStr op, Literal v =>
        if existsb (String.eqb op) comparison_operators
        then Ok (Compare m_cls field_name op v)
        else Raise (UnknownOperator operator)
    | VStr op, Compiled e =>
        if existsb (String.eqb op) relational_operators
        then Ok (Relate m_cls field_name op e)
        else Raise (UnknownOperator operator)
    | _, _ => Raise (UnknownOperator operator)
    end.

(** ** What a compiled predicate selects *)

(** SQLAlchemy renders a conjunction or disjunction of no clause as a blank
    string and leaves blank clauses out; [None] is the blank clause.  The
    meaning of a comparison or of a relationship predicate is [leaf]. *)
Fixpoint clause_holds (leaf : expr -> row -> bool) (e : expr) (r : row)
  : option bool :=
  let present :=
    flat_map (fun c => match clause_holds leaf c r with
                       | Some b => [b]
                       | None => []
                       end) in
  match e with
  | and_ l =>
      match present l with
      | [] => None
      | bs => Some (forallb (fun b => b) bs)
      end
  | or_ l =>
      match present l with
      | [] => None
      | bs => Some (existsb (fun b => b) bs)
      end
  | _ => Some (leaf e r)
  end.

(** A row is selected when every criterion of the query that is not blank
    holds of it. *)
Definition Query_selects (leaf : expr -> row -> bool) (q : Query) (r : row)
  : bool :=
  forallb (fun c => match clause_holds leaf c r with
                    | Some b => b
                    | None => true
                    end) (q_criteria q).

(** The comparisons and relationship predicates a clause is made of. *)
Fixpoint leaves (e : expr) : list expr :=
  match e with
  | and_ l => flat_map leaves l
  | or_ l => flat_map leaves l
  | _ => [e]
  end.

(** ** Reference formulations *)

(** Compiling the children of a combinator one after the other. *)
Fixpoint compile_children (build : value -> M compiled) (items : list value)
  : M (list compiled) :=
  match items with
  | [] => ret []
  | v :: rest =>
      c <- build v ;;
      cs <- compile_children build rest ;;
      ret (c :: cs)
  end.

(** The predicates a child contributes to its parent's argument list. *)
Definition splice (c : compiled) : list expr :=
  match c with
  | Listed l => l
  | Single e => [e]
  end.

(** A mapping compiled as one leaf criterion: its three entries are
    evaluated, and a resolution failure becomes an [INVALID_FIELD] error
    on its field name. *)
Definition compile_criterion (load_class : string -> Res class)
    (Criterion_eval : class -> string -> operand -> value -> Res expr)
    (d : list (string * value)) : M compiled :=
  let entry k default :=
    match dict_lookup d k with Some x => x | None => default end in
  try_except_AttributeError
    (e <- eval_criterion load_class Criterion_eval
            (entry "field_name" VNone) (entry "field_value" VNone)
            (entry "operator" VNone) ;;
     ret (Listed [e]))
    (throw_error INVALID_FIELD [entry "field_name" (VStr "unknown")]).

(** How many criteria are nested in a [field_value]. *)
Fixpoint nesting_depth (field_value : value) : nat :=
  match field_value with
  | VDict d =>
      match dict_lookup_with nesting_depth d "field_value" with
      | Some n => S n
      | None => 0
      end
  | _ => 0
  end.

(** The [Criterion] calls of a trace form a chain: the first is on a
    literal, each later one is on the predicate the call before it
    returned, and the last returns [final]. *)
Fixpoint wraps (Criterion_eval : class -> string -> operand -> value -> Res expr)
    (prev : option expr) (evs : list event) (final : expr) : Prop :=
  match evs with
  | [] => prev = Some final
  | EvCriterion c a o op :: rest =>
      match prev with
      | None => exists v, o = Literal v
      | Some q => o = Compiled q
      end /\
      exists q', Criterion_eval c a o op = Ok q' /\
                 wraps Criterion_eval (Some q') rest final
  | _ :: rest => wraps Criterion_eval prev rest final
  end.

Fixpoint criterion_calls (evs : list event) : nat :=
  match evs with
  | [] => 0
  | EvCriterion _ _ _ _ :: rest => S (criterion_calls rest)
  | _ :: rest => criterion_calls rest
  end.

(** ** Computations that respect the object *)

(** A computation is stable when it leaves the [Search] object as it found
    it and only appends to the trace, and when what it returns and what it
    appends depend on the object alone, not on the trace so far. *)
Definition stable {A : Type} (m : M A) : Prop :=
  forall s, exists r evs,
    forall tr, m (mkState s tr) = (r, mkState s (tr ++ evs)).

(** Every exception a computation raises satisfies [P]. *)
Definition raises_only {A : Type} (P : exn -> Prop) (m : M A) : Prop :=
  forall st e st', m st = (Raise e, st') -> P e.

(** Not the error of the query builder itself. *)
Definition foreign (e : exn) : Prop :=
  match e with
  | SqlAlchemyException _ _ => False
  | _ => True
  end.

(** An error of the query builder names one field. *)
Definition names_one_field (e : exn) : Prop :=
  match e with
  | SqlAlchemyException _ fields => length fields = 1
  | _ => True
  end.

(** ** A small model package *)

Module Demo.

Definition Entity : class :=
  mkClass "models.Entity" ["id"; "name"; "created_at"].
Definition NotificationGroup : class :=
  mkClass "models.NotificationGroup" ["group_mappings"].
Definition NotificationGroupMapping : class :=
  mkClass "models.NotificationGroupMapping" ["recipient"].
Definition Recipient : class :=
  mkClass "models.Recipient" ["recipient_email"].
(** A class of the sub-package [my-models]. *)
Definition Archived : class :=
  mkClass "models.my-models.Entity" ["id"].

Definition registry : list class :=
  [Entity; NotificationGroup; NotificationGroupMapping; Recipient; Archived].

Definition load_class : string -> Res class := registry_load_class registry.

Definition criterion (field_name : string) (field_value : value)
    (operator : string) : value :=
  VDict [("field_name", VStr field_name); ("field_value", field_value);
         ("operator", VStr operator)].

(** Twenty-five rows, numbered from 0. *)
Definition table : list row :=
  map (fun i => [("id", VInt (Z.of_nat i))]) (seq 0 25).

Definition session : Session := mkSession (fun _ _ _ => table).

Definition search (filter_by : value) (order_by : list string)
    (page per_page : Z) (all : bool) : State :=
  mkState (mkSearch [Entity] filter_by order_by page per_page all None
                    session "models") [].

Definition idle : State := search (VList []) [] 1 10 false.

(** The chain of the docstring of [__eval_criterion__]. *)
Definition chain : value :=
  criterion "NotificationGroupMapping.recipient"
    (criterion "Recipient.recipient_email" (VStr "Samson") "contains") "has".

Definition chain_predicate : expr :=
  Relate NotificationGroup "group_mappings" "any"
    (Relate NotificationGroupMapping "recipient" "has"
       (Compare Recipient "recipient_email" "contains" (VStr "Samson"))).

Definition chain_final : State :=
  snd (eval_criterion load_class operator_table_eval
         (VStr "NotificationGroup.group_mappings") chain (VStr "any") idle).

(** Three sibling criteria, the first and the last on fields that the
    entity does not have. *)
Definition siblings : list value :=
  [criterion "Entity.bad1" (VInt 1) "eq";
   criterion "Entity.name" (VStr "a") "eq";
   criterion "Entity.bad2" (VInt 2) "eq"].

Definition empty_branches : list (string * value) :=
  [("or", VList []); ("and", VList [])].

Definition empty_query : Query :=
  mkQuery session [Entity] [or_ [or_ []]; and_ [and_ []]] [] None.

Definition unfiltered_query : Query :=
  mkQuery session [Entity] [and_ []] [] None.

End Demo.

(** ** Construction and comparison of [Search] objects *)

(** [Search.__init__]: an argument that is left out takes its default.  An
    empty [order_by], the empty tuple of the default included, is the empty
    list that [query] makes of it. *)
Definition Search_init (session : Session) (model_module : string)
    (model_classes : list class) (filter_by : option value)
    (order_by : option (list string)) (page per_page : option Z)
    (all : option bool) (window_size : option Z) : Search :=
  mkSearch model_classes
    (match filter_by with Some f => f | None => VList [] end)
    (match order_by with Some o => o | None => [] end)
    (match page with Some p => p | None => 1%Z end)
    (match per_page with Some p => p | None => 10%Z end)
    (match all with Some a => a | None => false end)
    window_size session model_module.

(** The same object asked for another page. *)
Definition with_page (p : Z) (s : Search) : Search :=
  mkSearch (model_classes s) (filter_by s) (order_by s) p (per_page s)
           (all s) (window_size s) (session s) (model_module s).

(** Two objects with the same entities, filter, ordering, session and
    module: they differ at most in the pagination and in the window
    size. *)
Definition same_query (s s' : Search) : Prop :=
  model_classes s = model_classes s' /\ filter_by s = filter_by s' /\
  order_by s = order_by s' /\ session s = session s' /\
  model_module s = model_module s'.

(** Two objects that differ at most in [window_size] and, when [all] is
    set, in the page and the page size. *)
Definition same_request (s s' : Search) : Prop :=
  same_query s s' /\ all s = all s' /\
  (all s = false -> page s = page s' /\ per_page s = per_page s').

(** A computation is blind to what [R] leaves free when, on two objects
    related by [R], it returns the same and makes the same calls, and
    leaves both objects as they were. *)
Definition blind (R : Search -> Search -> Prop) {A : Type} (m : M A) : Prop :=
  forall s s' tr, R s s' ->
    exists r evs,
      m (mkState s tr) = (r, mkState s (tr ++ evs)) /\
      m (mkState s' tr) = (r, mkState s' (tr ++ evs)).

(** The rows of the data a run of [results] returned, none when it
    raised. *)
Definition data_of (r : Res results_dict * State) : list row :=
  match fst r with
  | Ok d => data d
  | Raise _ => []
  end.

Definition is_mapping (v : value) : Prop :=
  match v with
  | VDict _ => True
  | _ => False
  end.

(** ** More of the model package *)

Module Cases.

(** A criterion with no dot in its field name. *)
Definition undotted : list (string * value) :=
  [("field_name", VStr "name"); ("field_value", VStr "a");
   ("operator", VStr "eq")].

(** A criterion with no field name. *)
Definition nameless : list (string * value) :=
  [("field_value", VStr "a"); ("operator", VStr "eq")].

(** A nested criterion with no operator. *)
Definition headless : list (string * value) :=
  [("field_name", VStr "Recipient.recipient_email");
   ("field_value", VStr "a")].

(** A relationship criterion on a field that the related entity does not
    have. *)
Definition bad_inner : list (string * value) :=
  [("field_name", VStr "NotificationGroup.group_mappings");
   ("field_value",
    Demo.criterion "NotificationGroupMapping.missing" (VStr "a") "eq");
   ("operator", VStr "any")].

Definition after_bad_inner : State :=
  snd (eval_criterion Demo.load_class operator_table_eval
         (VStr "NotificationGroupMapping.missing") (VStr "a") (VStr "eq")
         (mkState (self Demo.idle)
            [EvLoadClass "models.NotificationGroup"])).

Definition good : value := Demo.criterion "Entity.name" (VStr "a") "eq".

Definition bad_entries : list (string * value) :=
  [("field_name", VStr "Entity.bad1"); ("field_value", VInt 1);
   ("operator", VStr "eq")].
Definition bad : value := VDict bad_entries.

Definition good_predicate : expr :=
  Compare Demo.Entity "name" "eq" (VStr "a").

Definition after_good : State :=
  snd (eval_criterion Demo.load_class operator_table_eval
         (VStr "Entity.name") (VStr "a") (VStr "eq") Demo.idle).

Definition after_good_bad : State :=
  snd (build_expressions Demo.load_class operator_table_eval bad after_good).

Definition after_two_good : State :=
  snd (build_sql_sequence Demo.load_class operator_table_eval
         (VList [good; good]) or_ Demo.idle).

Definition after_siblings : State :=
  snd (eval_criteria Demo.load_class operator_table_eval
         (VList Demo.siblings) Demo.idle).

(** Newest first, then by id. *)
Definition ordered : State :=
  Demo.search (VList []) ["-Entity.created_at"; "Entity.id"] 1 10 false.

Definition ordered_query : Query :=
  mkQuery Demo.session [Demo.Entity] [and_ []]
    [mkOrder Demo.Entity "created_at" desc; mkOrder Demo.Entity "id" asc]
    None.

Definition after_ordered : State :=
  snd (query Demo.load_class operator_table_eval ordered).

(** The same search with a window size. *)
Definition windowed : Search :=
  mkSearch [Demo.Entity] (VList []) [] 1 10 false (Some 100%Z)
           Demo.session "models".

End Cases.

(** ** What one invocation of [results] is made of *)

(** The filter of [query], lines 111-118, on its own: the clauses that
    [filter] is given, compiled from the filter of the object by
    [__build_expressions__]. *)
Definition compile_filter (load_class : string -> Res class)
    (Criterion_eval : class -> string -> operand -> value -> Res expr)
    (filter_by : value) : M (list expr) :=
  match filter_by with
  | VList _ =>
      expression <- build_expressions load_class Criterion_eval filter_by ;;
      e <- as_clause expression ;;
      ret [e]
  | _ =>
      or_filter <- py_get filter_by "or" (VList []) ;;
      and_filter <- py_get filter_by "and" (VList []) ;;
      or_expression <- build_expressions load_class Criterion_eval
                         (VDict [("or", or_filter)]) ;;
      and_expression <- build_expressions load_class Criterion_eval
                          (VDict [("and", and_filter)]) ;;
      oe <- as_clause or_expression ;;
      ae <- as_clause and_expression ;;
      ret [or_ [oe]; and_ [ae]]
  end.

(** What an invocation of [results] returns and which calls it makes,
    given what the compilation of the filter returned after the calls
    [evf] and what the ordering returned after the calls [evo]: an
    exception of either is the exception of [results]; otherwise the query
    is counted and then fetched, sliced unless [all] is set. *)
Definition invocation (s : Search) (rf : Res (list expr)) (evf : list event)
    (ro : Res (list order_expr)) (evo : list event)
  : Res results_dict * list event :=
  match rf with
  | Raise e => (Raise e, evf)
  | Ok criteria =>
      match ro with
      | Raise e => (Raise e, evf ++ evo)
      | Ok order_by_expressions =>
          let q := mkQuery (session s) (model_classes s) criteria
                           order_by_expressions None in
          let sliced :=
            if all s
            then q
            else Query_slice q (per_page s * (page s - 1))
                             (per_page s * page s) in
          (Ok (mkResults (Query_rows sliced)
                         (Z.of_nat (length (Query_rows q)))),
           evf ++ evo ++ [EvCount q; EvAll sliced])
      end
  end.

(** * Properties *)

(** ** Induction on values and basic facts *)

Lemma value_rect_nested (P : value -> Prop)
  (HNone : P VNone)
  (HBool : forall b, P (VBool b))
  (HInt : forall n, P (VInt n))
  (HStr : forall s, P (VStr s))
  (HList : forall l, Forall P l -> P (VList l))
  (HDict : forall d, Forall (fun kv => P (snd kv)) d -> P (VDict d)) :
forall v, P v.
Proof.
fix IH 1. intros [ | b | n | s | l | d ].
- exact HNone.
- apply HBool.
- apply HInt.
- apply HStr.
- apply HList. induction l as [ | x l IHl ]; constructor.
  + apply IH.
  + exact IHl.
- apply HDict. induction d as [ | [k x] d IHd ]; constructor.
  + simpl. apply IH.
  + exact IHd.
Qed.

Lemma dict_lookup_with_map {B : Type} (f : value -> B) d k :
dict_lookup_with f d k = option_map f (dict_lookup d k).
Proof.
induction d as [ | [k' v] d IH ]; simpl.
- reflexivity.
- destruct (String.eqb k' k); [ reflexivity | exact IH ].
Qed.

Lemma dict_lookup_In d k v :
dict_lookup d k = Some v -> In (k, v) d.
Proof.
induction d as [ | [k' x] d IH ]; simpl; intros H.
- discriminate.
- destruct (String.eqb k' k) eqn:E.
  + apply String.eqb_eq in E. injection H as ->. subst. now left.
  + right. now apply IH.
Qed.

Lemma dict_lookup_Forall (P : value -> Prop) d k v :
Forall (fun kv => P (snd kv)) d -> dict_lookup d k = Some v -> P v.
Proof.
intros HF HL. apply dict_lookup_In in HL.
rewrite Forall_forall in HF. exact (HF _ HL).
Qed.

(** ** Splitting a dotted path *)

Lemma substring_all s : substring 0 (String.length s) s = s.
Proof.
  induction s as [ | a s IH ]; simpl; [ reflexivity | now rewrite IH ].
Qed.

Lemma rindex_None c s :
  PyStr.rindex c s = None -> PyStr.contains c s = false.
Proof.
  induction s as [ | a s IH ]; simpl; [ reflexivity | ].
  destruct (PyStr.rindex c s); [ discriminate | ].
  destruct (Ascii.eqb a c); [ discriminate | ].
  intros _. now apply IH.
Qed.

Lemma contains_rindex c s :
  PyStr.contains c s = true -> exists i, PyStr.rindex c s = Some i.
Proof.
  induction s as [ | a s IH ]; simpl; [ discriminate | ].
  destruct (PyStr.rindex c s) as [j | ] eqn:E.
  - intros _. now exists (S j).
  - destruct (Ascii.eqb a c); simpl.
    + intros _. now exists 0.
    + intros H. destruct (IH H) as [i Hi]. discriminate.
Qed.

Lemma rindex_split c s :
  forall i, PyStr.rindex c s = Some i ->
    s = (PyStr.slice_to i s ++ String c (PyStr.slice_from (i + 1) s))%string /\
    PyStr.contains c (PyStr.slice_from (i + 1) s) = false /\
    String.length (PyStr.slice_to i s) = i.
Proof.
  unfold PyStr.slice_to, PyStr.slice_from.
  induction s as [ | a s IH ]; simpl; intros i H; [ discriminate | ].
  destruct (PyStr.rindex c s) as [j | ] eqn:E.
  - injection H as <-. destruct (IH j eq_refl) as (H1 & H2 & H3).
    simpl. rewrite H3. split; [ | split ]; [ | exact H2 | reflexivity ].
    rewrite <- H1 at 1. reflexivity.
  - destruct (Ascii.eqb a c) eqn:Ea; [ | discriminate ].
    injection H as <-. apply Ascii.eqb_eq in Ea. subst a. simpl.
    rewrite Nat.sub_0_r, substring_all.
    split; [ reflexivity | split ]; [ now apply rindex_None | reflexivity ].
Qed.

(** A path with a dot splits at its last dot. *)
Lemma split_at_last_dot_spec s :
  PyStr.contains dot s = true ->
  exists prefix suffix,
    split_at_last_dot s = Some (prefix, suffix) /\
    s = (prefix ++ "." ++ suffix)%string /\
    PyStr.contains dot suffix = false.
Proof.
  intros H. destruct (contains_rindex _ _ H) as [i Hi].
  destruct (rindex_split _ _ _ Hi) as (H1 & H2 & _).
  unfold split_at_last_dot. rewrite Hi.
  eexists _, _. split; [ reflexivity | split ]; [ exact H1 | exact H2 ].
Qed.

(** ** Stability of the primitives *)

Lemma bind_Ok {A B : Type} (m : M A) (f : A -> M B) st b st' :
  bind m f st = (Ok b, st') ->
  exists a st1, m st = (Ok a, st1) /\ f a st1 = (Ok b, st').
Proof.
  unfold bind. destruct (m st) as [[a | e] st1]; [ | discriminate ].
  intros H. now exists a, st1.
Qed.

Lemma ret_Ok {A : Type} (a b : A) st st' :
  ret a st = (Ok b, st') -> a = b /\ st = st'.
Proof. intros [= -> ->]. now split. Qed.

(** Runs a hypothesis [H : m st = (Ok b, st')] through the binds of [m],
    down to the successful steps it is made of. *)
Ltac run_step H :=
  lazymatch type of H with
  | ret _ _ = (Ok _, _) => apply ret_Ok in H; destruct H as [<- <-]
  | get_self _ = (Ok _, _) => injection H as <- <-
  | _ => idtac
  end.

Ltac run_in H :=
  cbv beta in H;
  lazymatch type of H with
  | bind _ _ _ = (Ok _, _) =>
      let H1 := fresh "Hstep" in
      apply bind_Ok in H; destruct H as (? & ? & H1 & H);
      run_step H1; run_in H
  | ret _ _ = (Ok _, _) => apply ret_Ok in H; destruct H as [? ?]; subst
  | _ => idtac
  end.

Lemma stable_ext {A : Type} (m m' : M A) :
  (forall st, m st = m' st) -> stable m' -> stable m.
Proof.
  intros E H s. destruct (H s) as (r & evs & Hr).
  exists r, evs. intros tr. now rewrite E.
Qed.

Lemma stable_ret {A : Type} (a : A) : stable (ret a).
Proof.
  intros s. exists (Ok a), []. intros tr. unfold ret. now rewrite app_nil_r.
Qed.

Lemma stable_raise {A : Type} (e : exn) : stable (@raise A e).
Proof.
  intros s. exists (Raise e), []. intros tr. unfold raise. now rewrite app_nil_r.
Qed.

Lemma stable_lift {A : Type} (r : Res A) : stable (lift r).
Proof.
  intros s. exists r, []. intros tr. unfold lift. now rewrite app_nil_r.
Qed.

Lemma stable_get_self : stable get_self.
Proof.
  intros s. exists (Ok s), []. intros tr. unfold get_self. simpl.
  now rewrite app_nil_r.
Qed.

Lemma stable_tell ev : stable (tell ev).
Proof.
  intros s. exists (Ok tt), [ev]. intros tr. reflexivity.
Qed.

Lemma stable_of_option {A : Type} e (o : option A) : stable (of_option e o).
Proof.
  destruct o; [ apply stable_ret | apply stable_raise ].
Qed.

Lemma stable_bind {A B : Type} (m : M A) (f : A -> M B) :
  stable m -> (forall a, stable (f a)) -> stable (bind m f).
Proof.
  intros Hm Hf s. destruct (Hm s) as ([a | e] & evs & H).
  - destruct (Hf a s) as (r' & evs' & H').
    exists r', (evs ++ evs'). intros tr. unfold bind.
    rewrite H, H'. now rewrite app_assoc.
  - exists (Raise e), evs. intros tr. unfold bind. now rewrite H.
Qed.

Lemma stable_bind_ret {A B : Type} (a : A) (f : A -> M B) :
  stable (f a) -> stable (bind (ret a) f).
Proof. intros H. exact H. Qed.

Lemma stable_bind_raise {A B : Type} (e : exn) (f : A -> M B) :
  stable (bind (raise e) f).
Proof. apply (stable_raise (A := B) e). Qed.

Lemma stable_try {A : Type} (body handler : M A) :
  stable body -> stable handler ->
  stable (try_except_AttributeError body handler).
Proof.
  intros Hb Hh s. destruct (Hb s) as (r & evs & H).
  destruct (Hh s) as (r' & evs' & H').
  assert (D : r = Raise AttributeError \/ r <> Raise AttributeError).
  { destruct r as [a | []]; try (right; discriminate). now left. }
  destruct D as [-> | D].
  - exists r', (evs ++ evs'). intros tr. unfold try_except_AttributeError.
    rewrite H, H'. now rewrite app_assoc.
  - exists r, evs. intros tr. unfold try_except_AttributeError. rewrite H.
    destruct r as [a | []]; try reflexivity. now elim D.
Qed.

Lemma stable_getitem d k : stable (getitem d k).
Proof. apply stable_of_option. Qed.

Lemma stable_py_get v k default : stable (py_get v k default).
Proof.
  destruct v; simpl; try apply stable_raise. apply stable_ret.
Qed.

Lemma stable_split_field_name v : stable (split_field_name v).
Proof.
  destruct v; simpl; try apply stable_raise. apply stable_of_option.
Qed.

Lemma stable_class_getattr c f : stable (class_getattr c f).
Proof.
  unfold class_getattr.
  destruct (existsb _ _); [ apply stable_ret | apply stable_raise ].
Qed.

Lemma stable_as_clause c : stable (as_clause c).
Proof. destruct c; [ apply stable_ret | apply stable_raise ]. Qed.

Lemma stable_Query_count q : stable (Query_count q).
Proof.
  apply stable_bind; [ apply stable_tell | intros; apply stable_ret ].
Qed.

Lemma stable_Query_all q : stable (Query_all q).
Proof.
  apply stable_bind; [ apply stable_tell | intros; apply stable_ret ].
Qed.

Create HintDb stable.
#[local] Hint Resolve stable_ret stable_raise stable_lift stable_get_self
  stable_tell stable_of_option stable_getitem stable_py_get
  stable_split_field_name stable_class_getattr stable_as_clause
  stable_Query_count stable_Query_all : stable.

(** Splits a stable goal along its binds and closes the atomic steps. *)
Ltac stable_step :=
  match goal with
  | |- stable (bind _ _) => apply stable_bind; [ | intros ]
  | |- stable (fun st => ?m st) => change (stable m)
  | |- stable (match ?p with _ => _ end) => destruct p
  | |- stable (try_except_AttributeError _ _) => apply stable_try
  | |- stable (if ?b then _ else _) => destruct b
  | |- stable _ => solve [ auto with stable ]
  end.

Lemma criterion_calls_app evs1 evs2 :
  criterion_calls (evs1 ++ evs2) = criterion_calls evs1 + criterion_calls evs2.
Proof.
  induction evs1 as [ | [] evs1 IH ]; simpl; auto.
Qed.

Lemma wraps_app Criterion_eval evs1 :
  forall prev q evs2 final,
    wraps Criterion_eval prev evs1 q ->
    wraps Criterion_eval (Some q) evs2 final ->
    wraps Criterion_eval prev (evs1 ++ evs2) final.
Proof.
  induction evs1 as [ | ev evs1 IH ]; intros prev q evs2 final H1 H2.
  - simpl in H1. subst prev. exact H2.
  - destruct ev; simpl in *; try (eapply IH; eassumption).
    destruct H1 as (Hop & q' & Hq' & Hrest). split; [ exact Hop | ].
    exists q'. split; [ exact Hq' | ]. eapply IH; eassumption.
Qed.

(** ** Which exceptions a computation raises *)

Lemma raises_only_ext {A : Type} P (m m' : M A) :
  (forall st, m st = m' st) -> raises_only P m' -> raises_only P m.
Proof.
  intros E H st e st' Hm. rewrite E in Hm. exact (H _ _ _ Hm).
Qed.

Lemma raises_only_weaken {A : Type} (P Q : exn -> Prop) (m : M A) :
  (forall e, P e -> Q e) -> raises_only P m -> raises_only Q m.
Proof.
  intros HPQ H st e st' Hm. exact (HPQ _ (H _ _ _ Hm)).
Qed.

Lemma raises_only_ret {A : Type} P (a : A) : raises_only P (ret a).
Proof. intros st e st' H. discriminate. Qed.

Lemma raises_only_raise {A : Type} (P : exn -> Prop) e :
  P e -> raises_only P (@raise A e).
Proof. intros HP st e' st' [= <- _]. exact HP. Qed.

Lemma raises_only_get_self P : raises_only P get_self.
Proof. intros st e st' H. discriminate. Qed.

Lemma raises_only_tell P ev : raises_only P (tell ev).
Proof. intros st e st' H. discriminate. Qed.

Lemma raises_only_lift {A : Type} (P : exn -> Prop) (r : Res A) :
  (forall e, r = Raise e -> P e) -> raises_only P (lift r).
Proof. intros HP st e st' [= -> _]. now apply HP. Qed.

Lemma raises_only_of_option {A : Type} (P : exn -> Prop) e (o : option A) :
  P e -> raises_only P (of_option e o).
Proof.
  intros HP. destruct o; [ apply raises_only_ret | now apply raises_only_raise ].
Qed.

Lemma raises_only_bind {A B : Type} P (m : M A) (f : A -> M B) :
  raises_only P m -> (forall a, raises_only P (f a)) ->
  raises_only P (bind m f).
Proof.
  intros Hm Hf st e st'. unfold bind.
  destruct (m st) as [[a | e1] st1] eqn:E.
  - apply Hf.
  - intros [= <- <-]. exact (Hm _ _ _ E).
Qed.

Lemma raises_only_try {A : Type} (P Q : exn -> Prop) (body handler : M A) :
  raises_only Q body -> raises_only P handler ->
  (forall e, Q e -> P e) ->
  raises_only P (try_except_AttributeError body handler).
Proof.
  intros Hb Hh HQP st e st'. unfold try_except_AttributeError.
  destruct (body st) as [[a | e1] st1] eqn:E; [ discriminate | ].
  destruct e1; try (intros [= <- <-]; exact (HQP _ (Hb _ _ _ E))).
  apply Hh.
Qed.

Lemma raises_only_py_get (P : exn -> Prop) v k default :
  P AttributeError -> raises_only P (py_get v k default).
Proof.
  intros HP. destruct v; simpl;
    try (now apply raises_only_raise). apply raises_only_ret.
Qed.

Lemma raises_only_split_field_name (P : exn -> Prop) v :
  P AttributeError -> P ValueError -> raises_only P (split_field_name v).
Proof.
  intros HA HV. destruct v; simpl; try (now apply raises_only_raise).
  now apply raises_only_of_option.
Qed.

(** ** Ordering tokens *)

Lemma replace_first_leading s :
  PyStr.startswith dash s = true ->
  exists rest, s = String dash rest /\ PyStr.replace_first dash s = rest.
Proof.
  destruct s as [ | a rest ]; simpl; [ discriminate | ].
  intros H. exists rest. rewrite H. apply Ascii.eqb_eq in H. now subst a.
Qed.

Lemma replace_first_absent s :
  PyStr.contains dash s = false -> PyStr.replace_first dash s = s.
Proof.
  induction s as [ | a s IH ]; simpl; [ reflexivity | ].
  destruct (Ascii.eqb a dash); simpl; [ discriminate | ].
  intros H. now rewrite IH.
Qed.

Section Compiler.

Variable load_class : string -> Res class.
Variable Criterion_eval : class -> string -> operand -> value -> Res expr.

Local Abbreviation eval_criterion := (eval_criterion load_class Criterion_eval).
Local Abbreviation eval_field_value := (eval_field_value load_class Criterion_eval).
Local Abbreviation eval_criteria := (eval_criteria load_class Criterion_eval).
Local Abbreviation build_expressions := (build_expressions load_class Criterion_eval).
Local Abbreviation build_sql_sequence := (build_sql_sequence load_class Criterion_eval).
Local Abbreviation build_leaf := (build_leaf load_class Criterion_eval).
Local Abbreviation ordering_expression := (ordering_expression load_class).
Local Abbreviation ordering_loop := (ordering_loop load_class).
Local Abbreviation query := (query load_class Criterion_eval).
Local Abbreviation results := (results load_class Criterion_eval).
Local Abbreviation call_load_class := (call_load_class load_class).
Local Abbreviation call_Criterion := (call_Criterion Criterion_eval).

(** [__eval_criterion__] as the source reads: split the name, load the
    class, evaluate the nested value, build the criterion. *)
Lemma eval_criterion_unfold field_name field_value operator st :
  eval_criterion field_name field_value operator st =
  ('(m_cls_name, attr) <- split_field_name field_name ;;
   s <- get_self ;;
   m_cls <- call_load_class (qualified (model_module s) m_cls_name) ;;
   field_value' <- eval_field_value field_value ;;
   call_Criterion m_cls attr field_value' operator) st.
Proof.
  destruct field_value as [ | b | n | s | l | d ]; try reflexivity.
  simpl. unfold bind.
  destruct (split_field_name field_name st) as [[[m a] | e] st1]; [ | reflexivity ].
  destruct (get_self st1) as [[s | e] st2]; [ | reflexivity ].
  destruct (call_load_class _ st2) as [[c | e] st3]; [ | reflexivity ].
  unfold getitem. rewrite dict_lookup_with_map.
  destruct (dict_lookup d "field_name") as [fn | ]; simpl; [ | reflexivity ].
  destruct (dict_lookup d "field_value") as [fv | ]; simpl; [ | reflexivity ].
  destruct (dict_lookup d "operator") as [op | ]; simpl; reflexivity.
Qed.

Lemma stable_call_load_class q : stable (call_load_class q).
Proof. unfold call_load_class. repeat stable_step. Qed.

Lemma stable_call_Criterion c a o op : stable (call_Criterion c a o op).
Proof. unfold call_Criterion. repeat stable_step. Qed.

Lemma stable_eval_criterion_from field_value :
  stable (eval_field_value field_value) ->
  forall field_name operator,
    stable (eval_criterion field_name field_value operator).
Proof.
  intros H field_name operator.
  eapply stable_ext; [ intros st; apply eval_criterion_unfold | ].
  apply stable_bind; [ auto with stable | intros [m_cls_name attr] ].
  apply stable_bind; [ auto with stable | intros s ].
  apply stable_bind; [ apply stable_call_load_class | intros m_cls ].
  apply stable_bind; [ exact H | intros operand ].
  apply stable_call_Criterion.
Qed.

Lemma stable_eval_field_value field_value :
  stable (eval_field_value field_value).
Proof.
  induction field_value as [ | b | n | s | l IH | d IH ]
    using value_rect_nested; try apply stable_ret.
  unfold eval_field_value; cbv beta iota.
  apply stable_bind; [ auto with stable | intros inner_name ].
  unfold getitem at 1.
  destruct (dict_lookup d "field_value") as [inner_value | ] eqn:E;
    [ | apply stable_bind_raise ].
  apply stable_bind_ret.
  apply stable_bind; [ auto with stable | intros inner_operator ].
  apply stable_bind; [ | intros e; apply stable_ret ].
  apply stable_eval_criterion_from.
  exact (dict_lookup_Forall (fun v => stable (eval_field_value v)) _ _ _ IH E).
Qed.

Lemma stable_eval_criterion field_name field_value operator :
  stable (eval_criterion field_name field_value operator).
Proof.
  apply stable_eval_criterion_from, stable_eval_field_value.
Qed.

#[local] Hint Resolve stable_call_load_class stable_call_Criterion
  stable_eval_criterion : stable.

Lemma stable_eval_criteria_loop criteria :
  forall acc, stable (eval_criteria_loop load_class Criterion_eval criteria acc).
Proof.
  induction criteria as [ | c rest IH ]; intros acc; simpl.
  - apply stable_ret.
  - apply stable_bind; [ | intros acc'; apply IH ].
    destruct acc as [expressions error_fields]. unfold eval_criteria_step.
    repeat stable_step.
Qed.

Lemma stable_eval_criteria criteria : stable (eval_criteria criteria).
Proof. apply stable_eval_criteria_loop. Qed.

Lemma stable_build_leaf filter_by : stable (build_leaf filter_by).
Proof.
  unfold build_leaf. apply stable_bind; [ apply stable_eval_criteria | ].
  intros [expressions error_fields]. unfold throw_error. repeat stable_step.
Qed.

Lemma stable_build_sql_sequence_from build func items :
  Forall (fun v => stable (build v)) items ->
  forall subqueries,
    stable (build_sql_sequence_from build func items subqueries).
Proof.
  induction 1 as [ | v rest Hv _ IH ]; intros subqueries; simpl.
  - apply stable_ret.
  - apply stable_bind; [ exact Hv | intros c; apply IH ].
Qed.

Lemma Forall_build_str (xs : list string) :
  Forall (fun v => stable (build_str v)) (map VStr xs).
Proof.
  apply Forall_forall. intros v _. apply stable_raise.
Qed.

Lemma stable_build_expressions_items filter_by :
  stable (build_expressions filter_by) /\
  (forall l, filter_by = VList l ->
             Forall (fun v => stable (build_expressions v)) l).
Proof.
  induction filter_by as [ | b | n | s | l IH | d IH ]
    using value_rect_nested;
    try (split; [ apply stable_raise | discriminate ]).
  - assert (F : Forall (fun v => stable (build_expressions v)) l).
    { eapply Forall_impl; [ | exact IH ]. now intros v [H _]. }
    split.
    + simpl. now apply stable_build_sql_sequence_from.
    + intros l' [= <-]. exact F.
  - split; [ | discriminate ].
    destruct d as [ | [operator node] rest ]; simpl; [ apply stable_raise | ].
    destruct (logical_operators operator) as [func | ];
      [ | apply stable_build_leaf ].
    inversion IH as [ | kv d' [_ Hnode] _ ]; subst. simpl in Hnode.
    destruct node; try apply stable_raise.
    + apply stable_build_sql_sequence_from, Forall_build_str.
    + apply stable_build_sql_sequence_from. now apply Hnode.
    + apply stable_build_sql_sequence_from, Forall_build_str.
Qed.

Lemma stable_build_expressions filter_by :
  stable (build_expressions filter_by).
Proof. apply stable_build_expressions_items. Qed.

#[local] Hint Resolve stable_build_expressions : stable.

Lemma stable_ordering_expression token : stable (ordering_expression token).
Proof. unfold ordering_expression. repeat stable_step. Qed.

Lemma stable_ordering_loop tokens :
  forall acc, stable (ordering_loop tokens acc).
Proof.
  induction tokens as [ | token rest IH ]; intros acc; simpl.
  - apply stable_ret.
  - apply stable_bind; [ apply stable_ordering_expression | intros e; apply IH ].
Qed.

#[local] Hint Resolve stable_ordering_loop : stable.

Lemma stable_query : stable query.
Proof. unfold query. repeat stable_step. Qed.

Lemma stable_results : stable results.
Proof.
  unfold results. apply stable_bind; [ apply stable_query | intros q ].
  repeat stable_step.
Qed.

(** A string has no [keys]: the loop over the keys of a dict or the
    characters of a [str] is the loop of the source. *)
Lemma build_sql_sequence_from_str func (xs : list string) :
  forall subqueries st,
    build_sql_sequence_from build_str func (map VStr xs) subqueries st =
    build_sql_sequence_from build_expressions func (map VStr xs) subqueries st.
Proof.
  destruct xs as [ | x xs ]; intros subqueries st; reflexivity.
Qed.

(** Lines 146-148: a mapping whose first key is a logical operator is
    handed, with the function of that operator, to
    [__build_sql_sequence__]. *)
Lemma build_expressions_combinator operator node rest func st :
  logical_operators operator = Some func ->
  build_expressions (VDict ((operator, node) :: rest)) st =
  build_sql_sequence node func st.
Proof.
  intros H. simpl. rewrite H.
  destruct node; try reflexivity.
  - unfold build_sql_sequence, py_iter, bind, ret.
    apply build_sql_sequence_from_str.
  - unfold build_sql_sequence, py_iter, bind, ret.
    apply build_sql_sequence_from_str.
Qed.

(** The loop of [__build_sql_sequence__] compiles the children in order
    and hands the operator everything they contribute. *)
Lemma build_sql_sequence_from_children build func items :
  forall subqueries st,
    build_sql_sequence_from build func items subqueries st =
    (children <- compile_children build items ;;
     ret (Single (func (subqueries ++ flat_map splice children)))) st.
Proof.
  induction items as [ | v rest IH ]; intros subqueries st; simpl.
  - unfold bind, ret. now rewrite app_nil_r.
  - unfold bind. destruct (build v st) as [[c | e] st1]; [ | reflexivity ].
    rewrite IH. unfold bind, ret.
    destruct (compile_children build rest st1) as [[cs | e] st2];
      [ | reflexivity ].
    simpl. destruct c as [x | l]; simpl; now rewrite <- app_assoc.
Qed.

(** C7: a combinator node compiles its children one after the other, a
    child that returned a list of predicates contributes the predicates of
    that list and a child that returned one predicate contributes it, and
    the n-ary operator is applied once, to the concatenation. *)
Theorem build_sql_sequence_flattens node func st :
  build_sql_sequence node func st =
  (items <- py_iter node ;;
   children <- compile_children build_expressions items ;;
   ret (Single (func (flat_map splice children)))) st.
Proof.
  unfold build_sql_sequence, bind.
  destruct (py_iter node st) as [[items | e] st1]; [ | reflexivity ].
  now rewrite build_sql_sequence_from_children.
Qed.

(** C3: compiling a bare list is compiling the same list under an
    explicit ["and"] key, and both are the conjunction of the children. *)
Theorem bare_list_is_implicit_and (l : list value) st :
  build_expressions (VList l) st =
    build_expressions (VDict [("and", VList l)]) st /\
  build_expressions (VList l) st = build_sql_sequence (VList l) and_ st.
Proof.
  split; reflexivity.
Qed.

(** The leaf branch on a mapping is the evaluation of one criterion. *)
Lemma build_leaf_mapping d st :
  build_leaf (VDict d) st = compile_criterion load_class Criterion_eval d st.
Proof.
  unfold build_leaf, compile_criterion, eval_criteria.
  simpl. unfold eval_criteria_step, try_except_AttributeError, bind, ret.
  simpl.
  destruct (eval_criterion _ _ _ st) as [[e | []] st1]; reflexivity.
Qed.

(** C10: a mapping is dispatched on its first key alone.  When that key
    is ["and"] or ["or"] the value under it is compiled as that combinator
    and the other entries are not looked at; otherwise the whole mapping is
    one leaf criterion, whatever keys come after the first. *)
Theorem build_expressions_dispatch operator node rest st :
  build_expressions (VDict ((operator, node) :: rest)) st =
  if String.eqb operator "and" then build_sql_sequence node and_ st
  else if String.eqb operator "or" then build_sql_sequence node or_ st
  else compile_criterion load_class Criterion_eval ((operator, node) :: rest) st.
Proof.
  destruct (logical_operators operator) as [func | ] eqn:E.
  - rewrite (build_expressions_combinator _ _ _ _ _ E).
    unfold logical_operators in E.
    destruct (String.eqb operator "and"); [ now injection E as <- | ].
    destruct (String.eqb operator "or"); [ now injection E as <- | ].
    discriminate.
  - rewrite <- build_leaf_mapping. simpl. rewrite E.
    unfold logical_operators in E.
    destruct (String.eqb operator "and"); [ discriminate | ].
    destruct (String.eqb operator "or"); [ discriminate | reflexivity ].
Qed.

(** A successful [__eval_criterion__], step by step: the class is loaded,
    then the field value is evaluated, and only then is the criterion
    built, on what that evaluation returned. *)
Lemma eval_criterion_steps field_name field_value operator st p st' :
  eval_criterion field_name field_value operator st = (Ok p, st') ->
  exists name m_cls_name attr m_cls field_value' st1,
    field_name = VStr name /\
    split_at_last_dot name = Some (m_cls_name, attr) /\
    load_class (qualified (model_module (self st)) m_cls_name) = Ok m_cls /\
    eval_field_value field_value
      (mkState (self st)
         (trace st ++
          [EvLoadClass (qualified (model_module (self st)) m_cls_name)])) =
      (Ok field_value', st1) /\
    Criterion_eval m_cls attr field_value' operator = Ok p /\
    st' = mkState (self st1)
            (trace st1 ++ [EvCriterion m_cls attr field_value' operator]).
Proof.
  rewrite eval_criterion_unfold. unfold bind, get_self.
  destruct field_name as [ | | | name | | ]; simpl; try discriminate.
  unfold of_option.
  destruct (split_at_last_dot name) as [[m_cls_name attr] | ] eqn:ES;
    simpl; [ | discriminate ].
  unfold call_load_class, call_Criterion, bind, tell, lift; simpl.
  destruct (load_class _) as [m_cls | e] eqn:EL; [ | discriminate ].
  destruct (eval_field_value field_value _) as [[field_value' | e] st1] eqn:EF;
    [ | discriminate ].
  destruct (Criterion_eval _ _ _ _) as [p' | e] eqn:EC; [ | discriminate ].
  intros [= <- <-].
  exists name, m_cls_name, attr, m_cls, field_value', st1.
  repeat split; auto.
Qed.

Lemma eval_field_value_steps field_value st field_value' st1 :
  eval_field_value field_value st = (Ok field_value', st1) ->
  match field_value with
  | VDict d =>
      exists inner_name inner_value inner_operator q,
        dict_lookup d "field_name" = Some inner_name /\
        dict_lookup d "field_value" = Some inner_value /\
        dict_lookup d "operator" = Some inner_operator /\
        eval_criterion inner_name inner_value inner_operator st = (Ok q, st1) /\
        field_value' = Compiled q
  | v => field_value' = Literal v /\ st1 = st
  end.
Proof.
  destruct field_value as [ | b | n | s | l | d ];
    try (intros [= <- <-]; now split).
  unfold eval_field_value, getitem, of_option, bind.
  destruct (dict_lookup d "field_name") as [inner_name | ] eqn:E1;
    simpl; [ | discriminate ].
  destruct (dict_lookup d "field_value") as [inner_value | ] eqn:E2;
    simpl; [ | discriminate ].
  destruct (dict_lookup d "operator") as [inner_operator | ] eqn:E3;
    simpl; [ | discriminate ].
  destruct (eval_criterion _ _ _ st) as [[q | e] st2] eqn:E; [ | discriminate ].
  intros [= <- <-]. exists inner_name, inner_value, inner_operator, q.
  repeat split; auto.
Qed.

Lemma eval_criterion_chain field_value :
  forall field_name operator st p st',
    eval_criterion field_name field_value operator st = (Ok p, st') ->
    exists evs,
      trace st' = trace st ++ evs /\
      wraps Criterion_eval None evs p /\
      criterion_calls evs = S (nesting_depth field_value).
Proof.
  induction field_value as [ | b | n | s | l IH | d IH ]
    using value_rect_nested;
    intros field_name operator st p st' H;
    apply eval_criterion_steps in H;
    destruct H as (name & m_cls_name & attr & m_cls & fv' & st1 &
                   _ & _ & _ & HF & HC & ->);
    apply eval_field_value_steps in HF;
    try (destruct HF as [-> ->];
         eexists; split; [ simpl; rewrite <- app_assoc; reflexivity | ];
         split; [ simpl; split; [ eexists; reflexivity | ];
                  exists p; split; [ exact HC | reflexivity ]
                | reflexivity ]).
  destruct HF as (inner_name & inner_value & inner_operator & q &
                  _ & HV & _ & HE & ->).
  pose proof (dict_lookup_Forall
                (fun v => forall field_name operator st p st',
                     eval_criterion field_name v operator st = (Ok p, st') ->
                     exists evs,
                       trace st' = trace st ++ evs /\
                       wraps Criterion_eval None evs p /\
                       criterion_calls evs = S (nesting_depth v))
                _ _ _ IH HV) as IHv.
  destruct (IHv _ _ _ _ _ HE) as (evs & Htr & Hw & Hn). simpl in Htr.
  exists ([EvLoadClass (qualified (model_module (self st)) m_cls_name)] ++
          evs ++ [EvCriterion m_cls attr (Compiled q) operator]).
  split; [ simpl trace; rewrite Htr; now rewrite <- !app_assoc | ].
  split.
  - simpl. eapply wraps_app; [ exact Hw | ]. simpl.
    split; [ reflexivity | ]. exists p. now split.
  - simpl. rewrite criterion_calls_app, Hn. simpl.
    rewrite dict_lookup_with_map, HV. simpl. lia.
Qed.

(** C2: a nested [field_value] is evaluated, to any depth, before the
    criterion around it is built.  The [Criterion] calls of a successful
    evaluation form a chain, one call for each nesting level plus one: the
    first call is the innermost comparison, on a literal, and each later
    call is on the predicate the call before it returned.  For a mapping
    as [field_value], the evaluation of the nested criterion is over, with
    its predicate [q], before the enclosing criterion is built on [q]. *)
Theorem nested_criterion_innermost_first
    field_name field_value operator st p st' :
  eval_criterion field_name field_value operator st = (Ok p, st') ->
  (exists evs,
      trace st' = trace st ++ evs /\
      wraps Criterion_eval None evs p /\
      criterion_calls evs = S (nesting_depth field_value)) /\
  (forall d, field_value = VDict d ->
     exists m_cls attr inner_name inner_value inner_operator q qualname st1,
       dict_lookup d "field_name" = Some inner_name /\
       dict_lookup d "field_value" = Some inner_value /\
       dict_lookup d "operator" = Some inner_operator /\
       load_class qualname = Ok m_cls /\
       eval_criterion inner_name inner_value inner_operator
         (mkState (self st) (trace st ++ [EvLoadClass qualname])) =
         (Ok q, st1) /\
       Criterion_eval m_cls attr (Compiled q) operator = Ok p /\
       st' = mkState (self st1)
               (trace st1 ++ [EvCriterion m_cls attr (Compiled q) operator])).
Proof.
  intros H. split; [ eapply eval_criterion_chain; exact H | ].
  intros d ->. apply eval_criterion_steps in H.
  destruct H as (name & m_cls_name & attr & m_cls & fv' & st1 &
                 _ & _ & HL & HF & HC & ->).
  apply eval_field_value_steps in HF.
  destruct HF as (inner_name & inner_value & inner_operator & q &
                  H1 & H2 & H3 & HE & ->).
  exists m_cls, attr, inner_name, inner_value, inner_operator, q,
    (qualified (model_module (self st)) m_cls_name), st1.
  repeat split; assumption.
Qed.

(** The ordering expressions follow the tokens, one for one and in their
    order; each is descending exactly when its token starts with the sign,
    and is on the attribute after the last dot of the token with its first
    sign deleted. *)
Lemma ordering_expression_spec token st e st' :
  ordering_expression token st = (Ok e, st') ->
  ord_dir e = (if PyStr.startswith dash token then desc else asc) /\
  exists entity,
    split_at_last_dot (PyStr.replace_first dash token) =
      Some (entity, ord_field e) /\
    load_class (qualified (model_module (self st)) entity) = Ok (ord_cls e).
Proof.
  unfold ordering_expression, of_option. intros H.
  destruct (split_at_last_dot _) as [[entity attr] | ] eqn:ES;
    [ | discriminate ].
  run_in H. simpl.
  unfold call_load_class, bind, tell, lift in Hstep.
  injection Hstep as HL <-.
  unfold class_getattr in Hstep0.
  destruct (existsb _ _); [ | discriminate ].
  apply ret_Ok in Hstep0 as [<- _]. simpl.
  split; [ reflexivity | ]. exists entity. now split.
Qed.

Lemma ordering_loop_in_order tokens :
  forall acc st obs st',
    ordering_loop tokens acc st = (Ok obs, st') ->
    exists es,
      obs = acc ++ es /\
      Forall2 (fun token e =>
                 ord_dir e =
                   (if PyStr.startswith dash token then desc else asc) /\
                 exists entity,
                   split_at_last_dot (PyStr.replace_first dash token) =
                     Some (entity, ord_field e))
              tokens es.
Proof.
  induction tokens as [ | token rest IH ]; intros acc st obs st' H; simpl in H.
  - apply ret_Ok in H as [<- _]. exists []. now rewrite app_nil_r.
  - run_in H. destruct (IH _ _ _ _ H) as (es & -> & HF).
    apply ordering_expression_spec in Hstep as (Hd & entity & Hs & _).
    exists (x :: es). rewrite <- app_assoc. split; [ reflexivity | ].
    constructor; [ | exact HF ]. split; [ exact Hd | now exists entity ].
Qed.

(** ** How many fields an error names *)

Section ErrorFields.

Hypothesis load_class_foreign :
  forall qualname e, load_class qualname = Raise e -> foreign e.
Hypothesis Criterion_eval_foreign :
  forall m_cls field_name field_value operator e,
    Criterion_eval m_cls field_name field_value operator = Raise e ->
    foreign e.

Lemma foreign_eval_field_value field_value :
  (forall field_name operator,
      raises_only foreign (eval_criterion field_name field_value operator)) /\
  raises_only foreign (eval_field_value field_value).
Proof.
  assert (step : forall fv,
             raises_only foreign (eval_field_value fv) ->
             forall field_name operator,
               raises_only foreign (eval_criterion field_name fv operator)).
  { intros fv H field_name operator.
    eapply raises_only_ext; [ intros st; apply eval_criterion_unfold | ].
    apply raises_only_bind;
      [ now apply raises_only_split_field_name | intros [m_cls_name attr] ].
    apply raises_only_bind; [ apply raises_only_get_self | intros s ].
    apply raises_only_bind; [ | intros m_cls ].
    { apply raises_only_bind; [ apply raises_only_tell | intros _ ].
      apply raises_only_lift. apply load_class_foreign. }
    apply raises_only_bind; [ exact H | intros operand ].
    apply raises_only_bind; [ apply raises_only_tell | intros _ ].
    apply raises_only_lift. apply Criterion_eval_foreign. }
  induction field_value as [ | b | n | s | l IH | d IH ]
    using value_rect_nested;
    try (split; [ apply step | ]; apply raises_only_ret).
  assert (H : raises_only foreign (eval_field_value (VDict d))).
  { unfold eval_field_value; cbv beta iota.
    apply raises_only_bind;
      [ now apply raises_only_of_option | intros inner_name ].
    unfold getitem at 1.
    destruct (dict_lookup d "field_value") as [inner_value | ] eqn:E;
      [ | intros st e st' [= <- _]; exact I ].
    change (raises_only foreign
              (inner_operator <- getitem d "operator" ;;
               e <- eval_criterion inner_name inner_value inner_operator ;;
               ret (Compiled e))).
    apply raises_only_bind;
      [ now apply raises_only_of_option | intros inner_operator ].
    apply raises_only_bind; [ | intros e; apply raises_only_ret ].
    apply (dict_lookup_Forall
             (fun v =>
                (forall field_name operator,
                    raises_only foreign
                      (eval_criterion field_name v operator)) /\
                raises_only foreign (eval_field_value v)) _ _ _ IH E). }
  split; [ now apply step | exact H ].
Qed.

Lemma names_one_field_compile_criterion d :
  raises_only names_one_field
    (compile_criterion load_class Criterion_eval d).
Proof.
  unfold compile_criterion.
  apply raises_only_try with (Q := foreign).
  - apply raises_only_bind; [ apply foreign_eval_field_value | ].
    intros e. apply raises_only_ret.
  - now apply raises_only_raise.
  - now intros [].
Qed.

Lemma names_one_field_sequence build func items :
  Forall (fun v => raises_only names_one_field (build v)) items ->
  forall subqueries,
    raises_only names_one_field
      (build_sql_sequence_from build func items subqueries).
Proof.
  induction 1 as [ | v rest Hv _ IH ]; intros subqueries; simpl.
  - apply raises_only_ret.
  - apply raises_only_bind; [ exact Hv | intros c; apply IH ].
Qed.

Lemma names_one_field_build_str (xs : list string) :
  Forall (fun v => raises_only names_one_field (build_str v)) (map VStr xs).
Proof.
  apply Forall_forall. intros v _. now apply raises_only_raise.
Qed.

(** Whatever the filter, an [INVALID_FIELD] error of the compiler names
    exactly one field. *)
Lemma build_expressions_names_one_field filter_by :
  raises_only names_one_field (build_expressions filter_by) /\
  (forall l, filter_by = VList l ->
             Forall (fun v => raises_only names_one_field
                                (build_expressions v)) l).
Proof.
  induction filter_by as [ | b | n | s | l IH | d IH ]
    using value_rect_nested;
    try (split; [ now apply raises_only_raise | discriminate ]).
  - assert (F : Forall (fun v => raises_only names_one_field
                                   (build_expressions v)) l).
    { eapply Forall_impl; [ | exact IH ]. now intros v [H _]. }
    split.
    + simpl. now apply names_one_field_sequence.
    + intros l' [= <-]. exact F.
  - split; [ | discriminate ].
    destruct d as [ | [operator node] rest ]; simpl;
      [ now apply raises_only_raise | ].
    destruct (logical_operators operator) as [func | ].
    + inversion IH as [ | kv d' [_ Hnode] _ ]; subst. simpl in Hnode.
      destruct node; try (now apply raises_only_raise).
      * apply names_one_field_sequence, names_one_field_build_str.
      * apply names_one_field_sequence. now apply Hnode.
      * apply names_one_field_sequence, names_one_field_build_str.
    + eapply raises_only_ext; [ intros st; apply build_leaf_mapping | ].
      apply names_one_field_compile_criterion.
Qed.

End ErrorFields.

(** C8: a field path with a dot in it is split at its last dot.  What is
    before that dot is the entity name, looked up in the module of the
    models, and what is after it, which has no dot, is the attribute name.
    So it is for the field name of a criterion, and for an ordering token
    once its sign is deleted. *)
Theorem field_path_split_at_last_dot path :
  PyStr.contains dot path = true ->
  exists entity attribute,
    path = (entity ++ "." ++ attribute)%string /\
    PyStr.contains dot attribute = false /\
    (forall field_value operator st,
        eval_criterion (VStr path) field_value operator st =
        (m_cls <- call_load_class (qualified (model_module (self st)) entity) ;;
         field_value' <- eval_field_value field_value ;;
         call_Criterion m_cls attribute field_value' operator) st) /\
    (forall ordering_criterion st,
        PyStr.replace_first dash ordering_criterion = path ->
        ordering_expression ordering_criterion st =
        (m_cls <- call_load_class (qualified (model_module (self st)) entity) ;;
         _ <- class_getattr m_cls attribute ;;
         ret (mkOrder m_cls attribute
                (if PyStr.startswith dash ordering_criterion
                 then desc else asc))) st).
Proof.
  intros H. destruct (split_at_last_dot_spec _ H) as (entity & attribute & HS & HP & HA).
  exists entity, attribute. split; [ exact HP | split; [ exact HA | split ] ].
  - intros field_value operator st. rewrite eval_criterion_unfold.
    unfold bind at 1. simpl. rewrite HS. reflexivity.
  - intros ordering_criterion st E. unfold ordering_expression.
    rewrite E, HS. unfold bind, get_self, of_option, ret. simpl.
    destruct (load_class _) as [m_cls | e]; [ | reflexivity ].
    unfold class_getattr.
    destruct (existsb _ _); reflexivity.
Qed.

(** What [query] returns has no window yet and is on the session and the
    entities of the object; the object is as it was. *)
Lemma query_shape st q st1 :
  query st = (Ok q, st1) ->
  q_window q = None /\ q_session q = session (self st) /\
  q_entities q = model_classes (self st) /\ self st1 = self st.
Proof.
  intros H. destruct st as [s tr].
  destruct (stable_query s) as (r & evs & Hr). rewrite Hr in H.
  injection H as -> <-. specialize (Hr tr).
  unfold query in Hr. run_in Hr. simpl in *.
  destruct (filter_by s); run_in Hstep; simpl; auto.
Qed.

(** C6: the count is taken on the query before any slice; without [all]
    the rows returned are those of the half-open window from
    [(page-1)*per_page] to [page*per_page] of the rows of the query, pages
    counted from 1, a page past the last row is empty and leaves the count
    as it is, and with [all] every row is returned. *)
Theorem results_pagination st q st1 :
  query st = (Ok q, st1) ->
  (1 <= page (self st))%Z ->
  (1 <= per_page (self st))%Z ->
  let s := self st in
  let rows := fetch (session s) (model_classes s) (q_criteria q) (q_order q) in
  let start := ((page s - 1) * per_page s)%Z in
  let stop := (page s * per_page s)%Z in
  let window := firstn (Z.to_nat (stop - start)) (skipn (Z.to_nat start) rows) in
  q_window q = None /\
  results st =
    (Ok (mkResults (if all s then rows else window) (Z.of_nat (length rows))),
     mkState s (trace st1 ++
                [EvCount q;
                 EvAll (if all s then q else Query_slice q start stop)])) /\
  (forall i, nth_error window i =
             if (Z.of_nat i <? stop - start)%Z
             then nth_error rows (Z.to_nat start + i) else None) /\
  (stop - start)%Z = per_page s /\
  ((Z.of_nat (length rows) <= start)%Z -> window = []).
Proof.
  intros HQ Hpage Hper s rows start stop window.
  destruct (query_shape _ _ _ HQ) as (HW & HS & HE & Hself).
  split; [ exact HW | ].
  assert (Hrows : fetch (q_session q) (q_entities q) (q_criteria q) (q_order q)
                  = rows) by (now rewrite HS, HE).
  assert (Hsize : (stop - start)%Z = per_page s)
    by (unfold stop, start; ring).
  assert (Hstart : (0 <= start)%Z) by (unfold start, s; nia).
  split; [ | split; [ | split ] ].
  - unfold results, bind. rewrite HQ.
    unfold Query_count, Query_all, bind, tell, ret, get_self. simpl.
    rewrite Hself. fold s.
    replace (per_page s * (page s - 1))%Z with start by (unfold start; lia).
    replace (per_page s * page s)%Z with stop by (unfold stop; lia).
    assert (HR : Query_rows q = rows)
      by (unfold Query_rows; now rewrite HW, Hrows).
    assert (HRw : Query_rows (Query_slice q start stop) = window)
      by (unfold Query_rows; simpl; now rewrite Hrows).
    rewrite <- app_assoc. destruct (all s); simpl; now rewrite HR, ?HRw.
  - intros i. unfold window. rewrite nth_error_firstn, nth_error_skipn.
    rewrite Hsize. unfold s.
    destruct (Z.ltb_spec (Z.of_nat i) (per_page (self st)));
      destruct (Nat.ltb_spec i (Z.to_nat (per_page (self st))));
      try reflexivity; exfalso; lia.
  - exact Hsize.
  - intros Hlen. unfold window. rewrite skipn_all2; [ apply firstn_nil | ].
    lia.
Qed.

Lemma stable_compile_filter filter_by :
  stable (compile_filter load_class Criterion_eval filter_by).
Proof. unfold compile_filter. repeat stable_step. Qed.

(** [query] compiles the filter of the object, then the ordering. *)
Lemma query_compiles_filter st :
  query st =
    (criteria <- compile_filter load_class Criterion_eval
                   (filter_by (self st)) ;;
     order_by_expressions <- ordering_loop (order_by (self st)) [] ;;
     ret (mkQuery (session (self st)) (model_classes (self st)) criteria
            order_by_expressions None)) st.
Proof.
  unfold query, compile_filter, bind, get_self, ret. cbv beta iota.
  destruct (filter_by (self st));
    repeat match goal with
      | |- context [let (_, _) := ?m in _] =>
          lazymatch m with
          | context [let (_, _) := _ in _] => fail
          | _ => destruct m as [[? | ?] ?]
          end
      end; reflexivity.
Qed.

(** An invocation of [results] from any trace: the filter is compiled,
    the ordering is resolved, the query is counted and fetched. *)
Lemma results_invocation s rf evf ro evo :
  (forall tr, compile_filter load_class Criterion_eval (filter_by s)
                (mkState s tr) = (rf, mkState s (tr ++ evf))) ->
  (forall tr, ordering_loop (order_by s) [] (mkState s tr) =
                (ro, mkState s (tr ++ evo))) ->
  forall tr,
    results (mkState s tr) =
      (fst (invocation s rf evf ro evo),
       mkState s (tr ++ snd (invocation s rf evf ro evo))).
Proof.
  intros Hf Ho tr. unfold results, bind at 1.
  rewrite query_compiles_filter. unfold bind at 1 2. simpl self.
  rewrite Hf. destruct rf as [criteria | e]; [ | reflexivity ].
  unfold bind at 1. rewrite Ho. destruct ro as [obs | e]; [ | simpl ].
  - unfold ret at 1. cbv beta iota.
    unfold Query_count, Query_all, bind, tell, ret, get_self. simpl.
    destruct (all s); simpl; now rewrite <- !app_assoc.
  - now rewrite <- app_assoc.
Qed.

(** C9: an invocation of [results] leaves the [Search] object as it was,
    field for field, and a second invocation from the state the first one
    left returns the same and makes the same calls to the class loader, to
    [Criterion] and to the session over again: nothing of the first
    compilation is kept.  What is returned and which calls are made is
    that of compiling the filter of the object and resolving its ordering
    from the start, whatever the trace so far, and then counting and
    fetching the query: the calls of each invocation begin with the calls
    [evf] of a compilation of the filter. *)
Theorem results_recompiles_from_unchanged_state st :
  exists r evs st1,
    results st = (r, st1) /\
    self st1 = self st /\
    trace st1 = trace st ++ evs /\
    results st1 = (r, mkState (self st) (trace st1 ++ evs)) /\
    exists rf evf ro evo,
      (forall tr,
          compile_filter load_class Criterion_eval (filter_by (self st))
            (mkState (self st) tr) = (rf, mkState (self st) (tr ++ evf))) /\
      (forall tr,
          ordering_loop (order_by (self st)) [] (mkState (self st) tr) =
            (ro, mkState (self st) (tr ++ evo))) /\
      (r, evs) = invocation (self st) rf evf ro evo.
Proof.
  destruct st as [s tr]. simpl self. simpl trace.
  destruct (stable_compile_filter (filter_by s) s) as (rf & evf & Hf).
  destruct (stable_ordering_loop (order_by s) [] s) as (ro & evo & Ho).
  pose proof (results_invocation s rf evf ro evo Hf Ho) as H.
  exists (fst (invocation s rf evf ro evo)),
         (snd (invocation s rf evf ro evo)),
         (mkState s (tr ++ snd (invocation s rf evf ro evo))).
  split; [ apply H | ]. split; [ reflexivity | ]. split; [ reflexivity | ].
  split; [ apply H | ].
  exists rf, evf, ro, evo. split; [ exact Hf | ]. split; [ exact Ho | ].
  now destruct (invocation s rf evf ro evo).
Qed.

(** C4: on a mapping, [query] compiles the value under ["or"] and then
    the value under ["and"], each defaulting to the empty list, applies
    [or_] to the predicates of the first and [and_] to those of the second,
    and gives the query both results as its criteria.  Both branches are
    compiled when they are empty, and then the criteria hold no comparison
    and select every row. *)
Theorem query_mapping_compiles_both_branches st d :
  filter_by (self st) = VDict d ->
  let s := self st in
  let or_filter :=
    match dict_lookup d "or" with Some x => x | None => VList [] end in
  let and_filter :=
    match dict_lookup d "and" with Some x => x | None => VList [] end in
  query st =
    (or_items <- py_iter or_filter ;;
     or_children <- compile_children build_expressions or_items ;;
     and_items <- py_iter and_filter ;;
     and_children <- compile_children build_expressions and_items ;;
     order_by_expressions <- ordering_loop (order_by s) [] ;;
     ret (mkQuery (session s) (model_classes s)
            [or_ [or_ (flat_map splice or_children)];
             and_ [and_ (flat_map splice and_children)]]
            order_by_expressions None)) st /\
  (or_filter = VList [] -> and_filter = VList [] ->
   forall q st', query st = (Ok q, st') ->
     q_criteria q = [or_ [or_ []]; and_ [and_ []]] /\
     flat_map leaves (q_criteria q) = [] /\
     forall leaf r, Query_selects leaf q r = true).
Proof.
  intros HF s or_filter and_filter.
  assert (E : query st =
    (or_items <- py_iter or_filter ;;
     or_children <- compile_children build_expressions or_items ;;
     and_items <- py_iter and_filter ;;
     and_children <- compile_children build_expressions and_items ;;
     order_by_expressions <- ordering_loop (order_by s) [] ;;
     ret (mkQuery (session s) (model_classes s)
            [or_ [or_ (flat_map splice or_children)];
             and_ [and_ (flat_map splice and_children)]]
            order_by_expressions None)) st).
  { subst s. unfold query, bind, get_self. cbv beta iota. rewrite HF.
    simpl py_get. fold or_filter. fold and_filter. unfold ret at 1 2.
    cbv beta iota.
    rewrite (build_expressions_combinator "or" or_filter [] or_ st eq_refl).
    unfold build_sql_sequence, bind.
    destruct (py_iter or_filter st) as [[or_items | e] st1]; [ | reflexivity ].
    rewrite build_sql_sequence_from_children. unfold bind.
    destruct (compile_children _ or_items st1) as [[ocs | e] st2];
      [ | reflexivity ].
    unfold ret at 1. cbv beta iota.
    rewrite (build_expressions_combinator "and" and_filter [] and_ st2 eq_refl).
    unfold build_sql_sequence, bind.
    destruct (py_iter and_filter st2) as [[and_items | e] st3];
      [ | reflexivity ].
    rewrite build_sql_sequence_from_children. unfold bind.
    destruct (compile_children _ and_items st3) as [[acs | e] st4];
      [ | reflexivity ].
    simpl.
    destruct (ordering_loop _ _ st4) as [[obs | e] st5]; reflexivity. }
  split; [ exact E | ].
  intros HO HA q st' HQ. rewrite E, HO, HA in HQ. simpl in HQ.
  run_in HQ.
  apply ret_Ok in Hstep as [<- <-]. apply ret_Ok in Hstep0 as [<- <-].
  repeat split.
Qed.

End Compiler.

(** ** The compiler on the model package *)

(** The chain of depth 3 compiles, innermost comparison first. *)
Lemma nested_criterion_innermost_first_witness :
  eval_criterion Demo.load_class operator_table_eval
    (VStr "NotificationGroup.group_mappings") Demo.chain (VStr "any")
    Demo.idle = (Ok Demo.chain_predicate, Demo.chain_final) /\
  exists evs,
    trace Demo.chain_final = trace Demo.idle ++ evs /\
    wraps operator_table_eval None evs Demo.chain_predicate /\
    criterion_calls evs = 3.
Proof.
  split; [ reflexivity | ].
  apply (nested_criterion_innermost_first Demo.load_class operator_table_eval
           (VStr "NotificationGroup.group_mappings") Demo.chain (VStr "any")
           Demo.idle Demo.chain_predicate Demo.chain_final).
  reflexivity.
Defined.

(** [{"or": [], "and": []}] selects every row. *)
Lemma query_mapping_compiles_both_branches_witness :
  filter_by (self (Demo.search (VDict Demo.empty_branches) [] 1 10 false)) =
    VDict Demo.empty_branches /\
  forall q st',
    query Demo.load_class operator_table_eval
      (Demo.search (VDict Demo.empty_branches) [] 1 10 false) = (Ok q, st') ->
    q_criteria q = [or_ [or_ []]; and_ [and_ []]] /\
    flat_map leaves (q_criteria q) = [] /\
    forall leaf r, Query_selects leaf q r = true.
Proof.
  split; [ reflexivity | ].
  apply (query_mapping_compiles_both_branches Demo.load_class
           operator_table_eval
           (Demo.search (VDict Demo.empty_branches) [] 1 10 false)
           Demo.empty_branches eq_refl); reflexivity.
Defined.

(** Twenty-five rows in pages of ten: the third page holds rows 20 to 24,
    the fourth is empty, and the count is 25 on both. *)
Lemma results_pagination_witness :
  query Demo.load_class operator_table_eval
    (Demo.search (VList []) [] 3 10 false) =
    (Ok Demo.unfiltered_query, Demo.search (VList []) [] 3 10 false) /\
  (1 <= 3)%Z /\ (1 <= 10)%Z /\
  fst (results Demo.load_class operator_table_eval
         (Demo.search (VList []) [] 3 10 false)) =
    Ok (mkResults (firstn 10 (skipn 20 Demo.table)) 25) /\
  length (firstn 10 (skipn 20 Demo.table)) = 5 /\
  fst (results Demo.load_class operator_table_eval
         (Demo.search (VList []) [] 4 10 false)) =
    Ok (mkResults [] 25).
Proof.
  split; [ reflexivity | ]. split; [ lia | ]. split; [ lia | ].
  destruct (results_pagination Demo.load_class operator_table_eval
              (Demo.search (VList []) [] 3 10 false)
              Demo.unfiltered_query
              (Demo.search (VList []) [] 3 10 false) eq_refl)
    as (_ & H3 & _); [ simpl; lia | simpl; lia | ].
  destruct (results_pagination Demo.load_class operator_table_eval
              (Demo.search (VList []) [] 4 10 false)
              Demo.unfiltered_query
              (Demo.search (VList []) [] 4 10 false) eq_refl)
    as (_ & H4 & _); [ simpl; lia | simpl; lia | ].
  split; [ rewrite H3; reflexivity | ]. split; [ reflexivity | ].
  rewrite H4. reflexivity.
Defined.

(** ["pkg.Entity.name"] is the attribute [name] of the entity
    [pkg.Entity]. *)
Lemma field_path_split_at_last_dot_witness :
  PyStr.contains dot "pkg.Entity.name" = true /\
  exists entity attribute,
    "pkg.Entity.name" = (entity ++ "." ++ attribute)%string /\
    PyStr.contains dot attribute = false.
Proof.
  split; [ reflexivity | ].
  destruct (field_path_split_at_last_dot Demo.load_class operator_table_eval
              "pkg.Entity.name" eq_refl)
    as (entity & attribute & H1 & H2 & _).
  exists entity, attribute. split; assumption.
Defined.

(** C1: of three sibling criteria, the first and the third on fields the
    entity does not have, the compiler reports the first alone and never
    evaluates the other two, whether the siblings come as a bare list or
    under ["and"]; [__eval_criteria__] on the same list collects both. *)
Theorem invalid_fields_reported_one_at_a_time :
  build_expressions Demo.load_class operator_table_eval
    (VList Demo.siblings) Demo.idle =
    (Raise (SqlAlchemyException INVALID_FIELD [VStr "Entity.bad1"]),
     mkState (self Demo.idle)
       [EvLoadClass "models.Entity";
        EvCriterion Demo.Entity "bad1" (Literal (VInt 1)) (VStr "eq")]) /\
  fst (build_expressions Demo.load_class operator_table_eval
         (VDict [("and", VList Demo.siblings)]) Demo.idle) =
    Raise (SqlAlchemyException INVALID_FIELD [VStr "Entity.bad1"]) /\
  fst (eval_criteria Demo.load_class operator_table_eval
         (VList Demo.siblings) Demo.idle) =
    Ok ([Compare Demo.Entity "name" "eq" (VStr "a")],
        [VStr "Entity.bad1"; VStr "Entity.bad2"]).
Proof.
  repeat split.
Qed.

(** C5: the ascending token ["my-models.Entity.id"] has no leading sign,
    and its path is an entity of the registry; the code deletes the hyphen
    inside it and looks up ["models.mymodels.Entity"], which is not
    there. *)
Theorem ordering_deletes_inner_hyphen :
  PyStr.startswith dash "my-models.Entity.id" = false /\
  split_at_last_dot "my-models.Entity.id" = Some ("my-models.Entity", "id") /\
  Demo.load_class (qualified "models" "my-models.Entity") = Ok Demo.Archived /\
  ordering_expression Demo.load_class "my-models.Entity.id" Demo.idle =
    (Raise AttributeError,
     mkState (self Demo.idle) [EvLoadClass "models.mymodels.Entity"]).
Proof.
  repeat split.
Qed.

(** * Further behaviour of the compiler *)

(** ** Paths *)

Lemma rindex_absent c s :
  PyStr.contains c s = false -> PyStr.rindex c s = None.
Proof.
  induction s as [ | a s IH ]; simpl; [ reflexivity | ].
  destruct (Ascii.eqb a c); simpl; [ discriminate | ].
  intros H. now rewrite IH.
Qed.

Lemma rindex_app_last c entity attribute :
  PyStr.contains c attribute = false ->
  PyStr.rindex c (entity ++ String c attribute)%string =
    Some (String.length entity).
Proof.
  intros H. induction entity as [ | a entity IH ]; simpl.
  - rewrite (rindex_absent _ _ H). now rewrite Ascii.eqb_refl.
  - now rewrite IH.
Qed.

Lemma slice_to_app entity rest :
  PyStr.slice_to (String.length entity) (entity ++ rest)%string = entity.
Proof.
  unfold PyStr.slice_to.
  induction entity as [ | a entity IH ]; simpl.
  - now destruct rest.
  - now rewrite IH.
Qed.

Lemma slice_from_app c entity attribute :
  PyStr.slice_from (String.length entity + 1)
    (entity ++ String c attribute)%string = attribute.
Proof.
  unfold PyStr.slice_from.
  induction entity as [ | a entity IH ]; simpl.
  - rewrite Nat.sub_0_r. apply substring_all.
  - exact IH.
Qed.

Lemma split_at_last_dot_qualified entity attribute :
  PyStr.contains dot attribute = false ->
  split_at_last_dot (qualified entity attribute) = Some (entity, attribute).
Proof.
  intros H. unfold split_at_last_dot, qualified. simpl.
  change (String "." attribute) with (String dot attribute).
  rewrite (rindex_app_last _ _ _ H), slice_to_app, slice_from_app.
  reflexivity.
Qed.

Lemma split_at_last_dot_undotted name :
  PyStr.contains dot name = false -> split_at_last_dot name = None.
Proof.
  intros H. unfold split_at_last_dot. now rewrite (rindex_absent _ _ H).
Qed.

Section Behaviour.

Variable load_class : string -> Res class.
Variable Criterion_eval : class -> string -> operand -> value -> Res expr.

Local Abbreviation eval_criterion := (eval_criterion load_class Criterion_eval).
Local Abbreviation eval_field_value := (eval_field_value load_class Criterion_eval).
Local Abbreviation eval_criteria := (eval_criteria load_class Criterion_eval).
Local Abbreviation eval_criteria_loop :=
  (eval_criteria_loop load_class Criterion_eval).
Local Abbreviation build_expressions := (build_expressions load_class Criterion_eval).
Local Abbreviation build_sql_sequence := (build_sql_sequence load_class Criterion_eval).
Local Abbreviation compile_criterion := (compile_criterion load_class Criterion_eval).
Local Abbreviation ordering_expression := (ordering_expression load_class).
Local Abbreviation ordering_loop := (ordering_loop load_class).
Local Abbreviation query := (query load_class Criterion_eval).
Local Abbreviation results := (results load_class Criterion_eval).
Local Abbreviation call_load_class := (call_load_class load_class).
Local Abbreviation call_Criterion := (call_Criterion Criterion_eval).

(** ** Field names *)

(** X1: the split of a field name undoes the joining of an entity name and
    an attribute name with a dot: for an attribute with no dot in it, the
    criterion on [entity.attribute] loads the class [entity] of the module
    and builds the criterion on [attribute], whatever dots the entity name
    has. *)
Theorem eval_criterion_on_qualified entity attribute :
  PyStr.contains dot attribute = false ->
  forall field_value operator st,
    eval_criterion (VStr (qualified entity attribute)) field_value operator st =
    (m_cls <- call_load_class (qualified (model_module (self st)) entity) ;;
     field_value' <- eval_field_value field_value ;;
     call_Criterion m_cls attribute field_value' operator) st.
Proof.
  intros H field_value operator st. rewrite eval_criterion_unfold.
  unfold bind at 1. simpl split_field_name.
  rewrite (split_at_last_dot_qualified _ _ H). reflexivity.
Qed.

(** A mapping whose first key is no logical operator is one leaf
    criterion. *)
Lemma build_expressions_leaf operator node rest st :
  logical_operators operator = None ->
  build_expressions (VDict ((operator, node) :: rest)) st =
  compile_criterion ((operator, node) :: rest) st.
Proof.
  intros H. rewrite <- build_leaf_mapping. simpl. now rewrite H.
Qed.

(** X2: a field name with no dot in it is not reported as an invalid
    field: [rindex] raises [ValueError], which [__eval_criteria__] does not
    catch, so the compilation of the criterion raises [ValueError], before
    any class is loaded. *)
Theorem undotted_field_name_raises_ValueError name d st :
  PyStr.contains dot name = false ->
  dict_lookup d "field_name" = Some (VStr name) ->
  (forall field_value operator,
      eval_criterion (VStr name) field_value operator st =
        (Raise ValueError, st)) /\
  eval_criteria (VDict d) st = (Raise ValueError, st) /\
  compile_criterion d st = (Raise ValueError, st).
Proof.
  intros H HN.
  assert (E : forall field_value operator,
             eval_criterion (VStr name) field_value operator st =
               (Raise ValueError, st)).
  { intros field_value operator. rewrite eval_criterion_unfold.
    unfold bind at 1. simpl split_field_name.
    now rewrite (split_at_last_dot_undotted _ H). }
  split; [ exact E | split ].
  - unfold eval_criteria. simpl.
    unfold eval_criteria_step, try_except_AttributeError, bind, ret. simpl.
    now rewrite HN, E.
  - unfold compile_criterion, try_except_AttributeError, bind.
    now rewrite HN, E.
Qed.

(** X3: a leaf criterion whose field name is missing, or is not a string,
    is reported as an invalid field without any class being loaded: the
    error names the value found under ["field_name"], and ["unknown"] when
    the key is missing. *)
Theorem nameless_criterion_is_invalid_field operator node rest st :
  logical_operators operator = None ->
  (forall name,
      dict_lookup ((operator, node) :: rest) "field_name" <> Some (VStr name)) ->
  build_expressions (VDict ((operator, node) :: rest)) st =
    (Raise (SqlAlchemyException INVALID_FIELD
              [match dict_lookup ((operator, node) :: rest) "field_name" with
               | Some x => x
               | None => VStr "unknown"
               end]), st).
Proof.
  intros HL HN. rewrite (build_expressions_leaf _ _ _ _ HL).
  unfold compile_criterion, try_except_AttributeError, bind.
  rewrite eval_criterion_unfold. unfold bind at 1.
  destruct (dict_lookup ((operator, node) :: rest) "field_name")
    as [[ | b | n | name | l | d] | ]; try reflexivity.
  now elim (HN name).
Qed.

(** ** Nested criteria *)

(** X4: a nested criterion that lacks one of its three keys raises
    [KeyError] on a key it lacks, once the class of the enclosing criterion
    is loaded and before any criterion is built. *)
Theorem nested_criterion_missing_key name entity attribute m_cls d operator st :
  split_at_last_dot name = Some (entity, attribute) ->
  load_class (qualified (model_module (self st)) entity) = Ok m_cls ->
  dict_lookup d "field_name" = None \/ dict_lookup d "field_value" = None \/
  dict_lookup d "operator" = None ->
  exists key,
    dict_lookup d key = None /\
    eval_criterion (VStr name) (VDict d) operator st =
      (Raise (KeyError key),
       mkState (self st)
         (trace st ++
          [EvLoadClass (qualified (model_module (self st)) entity)])).
Proof.
  intros HS HL HM.
  assert (E : forall key,
             eval_field_value (VDict d)
               (mkState (self st)
                  (trace st ++
                   [EvLoadClass (qualified (model_module (self st)) entity)])) =
               (Raise (KeyError key),
                mkState (self st)
                  (trace st ++
                   [EvLoadClass (qualified (model_module (self st)) entity)])) ->
             eval_criterion (VStr name) (VDict d) operator st =
               (Raise (KeyError key),
                mkState (self st)
                  (trace st ++
                   [EvLoadClass (qualified (model_module (self st)) entity)]))).
  { intros key HK. rewrite eval_criterion_unfold.
    unfold bind at 1. simpl split_field_name. rewrite HS.
    unfold of_option, ret, bind at 1, get_self. cbv beta iota.
    unfold bind at 1. unfold call_load_class at 1, bind at 1, tell, lift.
    cbv beta iota. simpl self. simpl trace. rewrite HL.
    unfold bind. now rewrite HK. }
  unfold eval_field_value, getitem, of_option, bind in E.
  destruct (dict_lookup d "field_name") as [inner_name | ] eqn:E1.
  - destruct (dict_lookup d "field_value") as [inner_value | ] eqn:E2.
    + destruct (dict_lookup d "operator") as [inner_operator | ] eqn:E3.
      * destruct HM as [HM | [HM | HM]]; discriminate.
      * exists "operator". split; [ exact E3 | ]. now apply E.
    + exists "field_value". split; [ exact E2 | ]. now apply E.
  - exists "field_name". split; [ exact E1 | ]. now apply E.
Qed.

(** X5: when the evaluation of a nested criterion fails on a field, the
    [AttributeError] passes through the enclosing criterion, and the error
    of the compiler names the field of the enclosing, outermost criterion,
    not the nested field that failed. *)
Theorem nested_failure_names_enclosing_field
    operator node rest name entity attribute m_cls inner
    inner_name inner_value inner_operator st st1 :
  let d := (operator, node) :: rest in
  let loaded := mkState (self st)
                  (trace st ++
                   [EvLoadClass (qualified (model_module (self st)) entity)]) in
  logical_operators operator = None ->
  dict_lookup d "field_name" = Some (VStr name) ->
  split_at_last_dot name = Some (entity, attribute) ->
  load_class (qualified (model_module (self st)) entity) = Ok m_cls ->
  dict_lookup d "field_value" = Some (VDict inner) ->
  dict_lookup inner "field_name" = Some inner_name ->
  dict_lookup inner "field_value" = Some inner_value ->
  dict_lookup inner "operator" = Some inner_operator ->
  eval_criterion inner_name inner_value inner_operator loaded =
    (Raise AttributeError, st1) ->
  build_expressions (VDict d) st =
    (Raise (SqlAlchemyException INVALID_FIELD [VStr name]), st1).
Proof.
  intros d loaded HL HN HS HC HV H1 H2 H3 HE. subst d.
  rewrite (build_expressions_leaf _ _ _ _ HL).
  unfold compile_criterion, try_except_AttributeError, bind.
  rewrite HN, HV, eval_criterion_unfold.
  unfold bind at 1. simpl split_field_name. rewrite HS.
  unfold of_option, ret, bind at 1, get_self. cbv beta iota.
  unfold bind at 1. unfold call_load_class at 1, bind at 1, tell, lift.
  cbv beta iota. simpl self. simpl trace. rewrite HC.
  unfold bind at 1. unfold eval_field_value, getitem, of_option, bind, ret.
  rewrite H1, H2, H3. fold loaded. now rewrite HE.
Qed.

(** ** Combinators *)

Lemma compile_children_stops build pre :
  forall v post st cs st1 e st2,
    compile_children build pre st = (Ok cs, st1) ->
    build v st1 = (Raise e, st2) ->
    compile_children build (pre ++ v :: post) st = (Raise e, st2).
Proof.
  induction pre as [ | x pre IH ]; intros v post st cs st1 e st2 HP HV; simpl.
  - apply ret_Ok in HP as [_ <-]. unfold bind. now rewrite HV.
  - simpl in HP. run_in HP. unfold bind. rewrite Hstep.
    now rewrite (IH _ post _ _ _ _ _ Hstep0 HV).
Qed.

(** X6: a combinator stops at its first child that fails: when the
    children before it compile and it raises, the combinator raises the
    same exception from the same state, and the children after it are not
    compiled. *)
Theorem combinator_stops_at_first_failure pre v post func st cs st1 e st2 :
  compile_children build_expressions pre st = (Ok cs, st1) ->
  build_expressions v st1 = (Raise e, st2) ->
  build_sql_sequence (VList (pre ++ v :: post)) func st = (Raise e, st2).
Proof.
  intros HP HV. unfold build_sql_sequence, py_iter. unfold bind at 1, ret at 1.
  rewrite build_sql_sequence_from_children. unfold bind.
  now rewrite (compile_children_stops _ _ _ post _ _ _ _ _ HP HV).
Qed.

Lemma sequence_returns_Single build func items subqueries st c st' :
  build_sql_sequence_from build func items subqueries st = (Ok c, st') ->
  exists children,
    compile_children build items st = (Ok children, st') /\
    c = Single (func (subqueries ++ flat_map splice children)).
Proof.
  rewrite build_sql_sequence_from_children. intros H. run_in H.
  exists x. now split.
Qed.

Lemma compile_criterion_returns_one d st c st' :
  compile_criterion d st = (Ok c, st') -> exists e, c = Listed [e].
Proof.
  unfold compile_criterion, try_except_AttributeError, bind, throw_error, raise.
  destruct (eval_criterion _ _ _ st) as [[e | []] st1]; try discriminate.
  intros [= <- _]. now exists e.
Qed.

Lemma build_expressions_shape filter_by st c st' :
  build_expressions filter_by st = (Ok c, st') ->
  match filter_by with
  | VList _ => exists clauses, c = Single (and_ clauses)
  | VDict ((operator, _) :: _) =>
      match logical_operators operator with
      | Some func => exists clauses, c = Single (func clauses)
      | None => exists e, c = Listed [e]
      end
  | _ => False
  end.
Proof.
  destruct filter_by as [ | b | n | s | l | [ | [operator node] rest ] ];
    try discriminate.
  - simpl. intros H. apply sequence_returns_Single in H as (cs & _ & ->).
    now eexists.
  - destruct (logical_operators operator) as [func | ] eqn:E.
    + rewrite (build_expressions_combinator _ _ _ _ _ _ _ E).
      unfold build_sql_sequence. intros H. run_in H.
      apply sequence_returns_Single in H as (cs & _ & ->). now eexists.
    + rewrite (build_expressions_leaf _ _ _ _ E).
      apply compile_criterion_returns_one.
Qed.

(** X7: what a successful compilation returns is decided by the shape of
    the filter: a list and a mapping under a logical operator give one
    expression, the application of that operator, and a leaf mapping gives
    a list of exactly one predicate; nothing else compiles. *)
Theorem build_expressions_result_shape filter_by st c st' :
  build_expressions filter_by st = (Ok c, st') ->
  match filter_by with
  | VList _ => exists clauses, c = Single (and_ clauses)
  | VDict ((operator, _) :: _) =>
      match logical_operators operator with
      | Some func => exists clauses, c = Single (func clauses)
      | None => exists e, c = Listed [e]
      end
  | _ => False
  end.
Proof.
  apply build_expressions_shape.
Qed.

Lemma build_expressions_contributes_one v st c st' :
  build_expressions v st = (Ok c, st') -> length (splice c) = 1.
Proof.
  intros H. apply build_expressions_shape in H.
  destruct v as [ | | | | l | [ | [operator node] rest ] ]; try contradiction.
  - now destruct H as [clauses ->].
  - destruct (logical_operators operator);
      now destruct H as [x ->].
Qed.

Lemma compile_children_one_each items :
  forall st cs st',
    compile_children build_expressions items st = (Ok cs, st') ->
    length (flat_map splice cs) = length items.
Proof.
  induction items as [ | v items IH ]; intros st cs st' H; simpl in H.
  - apply ret_Ok in H as [<- _]. reflexivity.
  - run_in H. simpl. rewrite length_app, (IH _ _ _ Hstep0).
    now rewrite (build_expressions_contributes_one _ _ _ _ Hstep).
Qed.

(** X8: the operator of a combinator receives exactly one clause for each
    item of its node, a nested combinator counting for one: leaf children
    are spliced and combinator children are nested. *)
Theorem combinator_has_one_clause_per_child node func st c st' :
  build_sql_sequence node func st = (Ok c, st') ->
  exists items clauses,
    py_iter node st = (Ok items, st) /\
    c = Single (func clauses) /\
    length clauses = length items.
Proof.
  unfold build_sql_sequence. intros H. run_in H.
  apply sequence_returns_Single in H as (cs & HC & ->).
  assert (x0 = st) as ->.
  { destruct node; try discriminate; now apply ret_Ok in Hstep as [_ ->]. }
  exists x, (flat_map splice cs). repeat split; try assumption.
  exact (compile_children_one_each _ _ _ _ HC).
Qed.

(** ** The loop of [__eval_criteria__] *)

Lemma eval_criteria_step_outcome d expressions error_fields st acc st' :
  eval_criteria_step load_class Criterion_eval (VDict d)
    (expressions, error_fields) st = (Ok acc, st') ->
  (exists e, acc = (expressions ++ [e], error_fields)) \/
  (exists name, acc = (expressions, error_fields ++ [name])).
Proof.
  unfold eval_criteria_step, try_except_AttributeError, bind, ret. simpl.
  destruct (eval_criterion _ _ _ st) as [[e | []] st1]; try discriminate;
    intros [= <- _]; [ left | right ]; now eexists.
Qed.

Lemma eval_criteria_loop_partitions criteria :
  Forall is_mapping criteria ->
  forall expressions error_fields st expressions' error_fields' st',
    eval_criteria_loop criteria (expressions, error_fields) st =
      (Ok (expressions', error_fields'), st') ->
    length expressions' + length error_fields' =
    length expressions + length error_fields + length criteria.
Proof.
  induction 1 as [ | c criteria Hc _ IH ];
    intros expressions error_fields st expressions' error_fields' st' H;
    simpl in H.
  - apply ret_Ok in H as [[= <- <-] _]. simpl. lia.
  - run_in H. destruct c as [ | | | | | d ]; try contradiction.
    apply eval_criteria_step_outcome in Hstep as [[e ->] | [name ->]];
      apply IH in H; rewrite H, length_app; simpl; lia.
Qed.

(** X9: on a list of mappings, [__eval_criteria__] accounts for every
    criterion once: when it returns, the predicates and the error fields
    together are as many as the criteria. *)
Theorem eval_criteria_partitions criteria st expressions error_fields st' :
  Forall is_mapping criteria ->
  eval_criteria (VList criteria) st = (Ok (expressions, error_fields), st') ->
  length expressions + length error_fields = length criteria.
Proof.
  intros HF H. unfold eval_criteria in H.
  now apply (eval_criteria_loop_partitions _ HF) in H.
Qed.

Lemma raises_only_try_caught {A : Type} (P : exn -> Prop) (body handler : M A) :
  raises_only P handler ->
  (forall e, e <> AttributeError -> P e) ->
  raises_only P (try_except_AttributeError body handler).
Proof.
  intros Hh HP st e st'. unfold try_except_AttributeError.
  destruct (body st) as [[a | e1] st1] eqn:E; [ discriminate | ].
  destruct e1; try (intros [= <- <-]; apply HP; discriminate).
  apply Hh.
Qed.

(** X10: on a list of mappings, no [AttributeError] leaves
    [__eval_criteria__]: each one is caught and recorded as an error field.
    The other exceptions pass. *)
Theorem eval_criteria_catches_AttributeError criteria :
  Forall is_mapping criteria ->
  raises_only (fun e => e <> AttributeError) (eval_criteria (VList criteria)).
Proof.
  intros HF. unfold eval_criteria.
  generalize (@nil expr, @nil value).
  induction HF as [ | c criteria Hc _ IH ]; intros acc; simpl.
  - apply raises_only_ret.
  - apply raises_only_bind; [ | intros acc'; apply IH ].
    destruct c as [ | | | | | d ]; try contradiction.
    destruct acc as [expressions error_fields]. unfold eval_criteria_step.
    apply raises_only_try_caught; [ | now intros e ].
    apply raises_only_bind; [ apply raises_only_ret | intros name ].
    apply raises_only_ret.
Qed.

(** ** The filter of [query] *)

#[local] Hint Resolve stable_call_load_class stable_call_Criterion
  stable_eval_criterion stable_build_expressions stable_ordering_loop
  stable_ordering_expression : stable.

Lemma stable_self {A : Type} (m : M A) st r st' :
  stable m -> m st = (r, st') -> self st' = self st.
Proof.
  intros H E. destruct st as [s tr]. destruct (H s) as (r0 & evs & Hr).
  rewrite Hr in E. now injection E as _ <-.
Qed.

(** [query] on a mapping, as in the source: the two branches, then the
    ordering. *)
Lemma query_on_mapping st d :
  filter_by (self st) = VDict d ->
  let s := self st in
  let or_filter :=
    match dict_lookup d "or" with Some x => x | None => VList [] end in
  let and_filter :=
    match dict_lookup d "and" with Some x => x | None => VList [] end in
  query st =
    (or_expression <- build_sql_sequence or_filter or_ ;;
     and_expression <- build_sql_sequence and_filter and_ ;;
     oe <- as_clause or_expression ;;
     ae <- as_clause and_expression ;;
     order_by_expressions <- ordering_loop (order_by s) [] ;;
     ret (mkQuery (session s) (model_classes s) [or_ [oe]; and_ [ae]]
            order_by_expressions None)) st.
Proof.
  intros HF s or_filter and_filter. subst s.
  unfold query, bind, get_self. cbv beta iota. rewrite HF.
  simpl py_get. fold or_filter. fold and_filter. unfold ret at 1 2.
  cbv beta iota.
  rewrite (build_expressions_combinator _ _ "or" or_filter [] or_ st eq_refl).
  destruct (build_sql_sequence or_filter or_ st) as [[oe | e] st1];
    [ | reflexivity ].
  rewrite (build_expressions_combinator _ _ "and" and_filter [] and_ st1 eq_refl).
  destruct (build_sql_sequence and_filter and_ st1) as [[ae | e] st2];
    [ | reflexivity ].
  destruct (as_clause oe st2) as [[oc | e] st3]; [ | reflexivity ].
  destruct (as_clause ae st3) as [[ac | e] st4]; [ | reflexivity ].
  simpl.
  destruct (ordering_loop _ _ st4) as [[obs | e] st5]; reflexivity.
Qed.

(** X11: at the top level a mapping is read for its ["and"] and ["or"]
    keys only.  A mapping with neither, a single criterion for one, is not
    compiled at all: the query goes straight to the ordering, makes no
    call to the loader or to [Criterion] for the filter, and selects every
    row. *)
Theorem top_level_criterion_mapping_is_ignored st d :
  filter_by (self st) = VDict d ->
  dict_lookup d "or" = None ->
  dict_lookup d "and" = None ->
  query st =
    (order_by_expressions <- ordering_loop (order_by (self st)) [] ;;
     ret (mkQuery (session (self st)) (model_classes (self st))
            [or_ [or_ []]; and_ [and_ []]] order_by_expressions None)) st /\
  (forall q st', query st = (Ok q, st') ->
     forall leaf r, Query_selects leaf q r = true).
Proof.
  intros HF HO HA.
  assert (E : query st =
    (order_by_expressions <- ordering_loop (order_by (self st)) [] ;;
     ret (mkQuery (session (self st)) (model_classes (self st))
            [or_ [or_ []]; and_ [and_ []]] order_by_expressions None)) st).
  { rewrite (query_on_mapping _ _ HF). rewrite HO, HA. reflexivity. }
  split; [ exact E | ].
  intros q st' HQ leaf r. rewrite E in HQ. run_in HQ. reflexivity.
Qed.

(** ** The ordering of [query] *)

Lemma ordering_expression_resolves token st e st' :
  ordering_expression token st = (Ok e, st') ->
  self st' = self st /\
  ord_dir e = (if PyStr.startswith dash token then desc else asc) /\
  exists entity,
    split_at_last_dot (PyStr.replace_first dash token) =
      Some (entity, ord_field e) /\
    load_class (qualified (model_module (self st)) entity) = Ok (ord_cls e) /\
    In (ord_field e) (cls_attrs (ord_cls e)).
Proof.
  intros H.
  split; [ exact (stable_self _ _ _ _ (stable_ordering_expression _ _) H) | ].
  unfold ordering_expression, of_option in H.
  destruct (split_at_last_dot _) as [[entity attr] | ] eqn:ES;
    [ | discriminate ].
  run_in H. simpl.
  unfold call_load_class, bind, tell, lift in Hstep.
  injection Hstep as HL <-.
  unfold class_getattr in Hstep0.
  destruct (existsb _ _) eqn:EX; [ | discriminate ].
  apply ret_Ok in Hstep0 as [<- _]. simpl.
  split; [ reflexivity | ]. exists entity. repeat split; try assumption.
  apply existsb_exists in EX as (a & Ha & Heq).
  apply String.eqb_eq in Heq. now subst a.
Qed.

Lemma ordering_loop_resolves tokens :
  forall acc st obs st',
    ordering_loop tokens acc st = (Ok obs, st') ->
    exists es,
      obs = acc ++ es /\
      Forall2 (fun token e =>
                 ord_dir e =
                   (if PyStr.startswith dash token then desc else asc) /\
                 exists entity,
                   split_at_last_dot (PyStr.replace_first dash token) =
                     Some (entity, ord_field e) /\
                   load_class (qualified (model_module (self st)) entity) =
                     Ok (ord_cls e) /\
                   In (ord_field e) (cls_attrs (ord_cls e)))
              tokens es.
Proof.
  induction tokens as [ | token rest IH ]; intros acc st obs st' H; simpl in H.
  - apply ret_Ok in H as [<- _]. exists []. now rewrite app_nil_r.
  - run_in H. destruct (IH _ _ _ _ H) as (es & -> & HF).
    apply ordering_expression_resolves in Hstep as (Hself & Hd & Hent).
    rewrite Hself in HF.
    exists (x :: es). rewrite <- app_assoc. split; [ reflexivity | ].
    constructor; [ | exact HF ]. now split.
Qed.

(** X12: the ordering of a query has one expression for each token of
    [order_by], in the order of the tokens.  The expression of a token is
    descending exactly when the token starts with the sign; it is on an
    attribute that the class has, the part after the last dot of the token
    with its first sign deleted, and on the class the loader returns for
    the part before that dot. *)
Theorem query_orders_by_tokens st q st' :
  query st = (Ok q, st') ->
  Forall2 (fun token e =>
             ord_dir e =
               (if PyStr.startswith dash token then desc else asc) /\
             exists entity,
               split_at_last_dot (PyStr.replace_first dash token) =
                 Some (entity, ord_field e) /\
               load_class (qualified (model_module (self st)) entity) =
                 Ok (ord_cls e) /\
               In (ord_field e) (cls_attrs (ord_cls e)))
          (order_by (self st)) (q_order q).
Proof.
  intros H. unfold query in H. run_in H.
  match goal with
  | Hf : _ st = (Ok ?dq, ?st1),
    Ho : ordering_loop _ _ ?st1 = (Ok _, _) |- _ =>
      assert (Hself : self st1 = self st /\ q_order dq = []);
      [ destruct (filter_by (self st)); run_in Hf;
        repeat match goal with
          | Hs : _ _ = (Ok _, _) |- _ =>
              apply stable_self in Hs; [ | solve [ auto with stable ] ]
          end; split; try reflexivity; congruence
      | destruct Hself as [Hself Hnil];
        apply ordering_loop_resolves in Ho as (es & -> & HF);
        rewrite Hself in HF; simpl; now rewrite Hnil ]
  end.
Qed.

(** X19: on a path with no hyphen in it, the sign does nothing but turn
    the direction: the token with the sign resolves as the token without
    it does, the same class and attribute after the same call to the
    loader, descending where the other is ascending. *)
Theorem sign_only_turns_the_direction path st :
  PyStr.contains dash path = false ->
  ordering_expression (String dash path) st =
    match ordering_expression path st with
    | (Ok e, st') => (Ok (mkOrder (ord_cls e) (ord_field e) desc), st')
    | (Raise e, st') => (Raise e, st')
    end /\
  (forall e st', ordering_expression path st = (Ok e, st') ->
                 ord_dir e = asc).
Proof.
  intros H.
  assert (HS : PyStr.startswith dash path = false).
  { destruct path as [ | a path ]; [ reflexivity | ]. simpl in *.
    now destruct (Ascii.eqb a dash). }
  unfold ordering_expression. rewrite HS.
  rewrite (replace_first_absent _ H). simpl PyStr.startswith.
  simpl PyStr.replace_first.
  split.
  - unfold of_option.
    destruct (split_at_last_dot path) as [[m_cls_name field_name] | ];
      [ | reflexivity ].
    unfold bind, ret, get_self. cbv beta iota.
    destruct (call_load_class (qualified (model_module (self st)) m_cls_name)
                st) as [[m_cls | e] st1]; [ | reflexivity ].
    now destruct (class_getattr m_cls field_name st1) as [[f | e] st2].
  - intros e st' HE. unfold of_option in HE.
    destruct (split_at_last_dot path) as [[m_cls_name field_name] | ];
      [ | discriminate ].
    run_in HE. reflexivity.
Qed.

(** X13: a failure to resolve an ordering field is not reported as an
    invalid field: when the loader raises no error of the query builder,
    neither does the ordering, whatever the tokens. *)
Theorem ordering_raises_no_invalid_field tokens acc :
  (forall qualname e, load_class qualname = Raise e -> foreign e) ->
  raises_only foreign (ordering_loop tokens acc).
Proof.
  intros HL. revert acc.
  induction tokens as [ | token rest IH ]; intros acc; simpl.
  - apply raises_only_ret.
  - apply raises_only_bind; [ | intros e; apply IH ].
    unfold ordering_expression.
    apply raises_only_bind; [ now apply raises_only_of_option | ].
    intros [m_cls_name field_name].
    apply raises_only_bind; [ apply raises_only_get_self | intros s ].
    apply raises_only_bind; [ | intros m_cls ].
    { apply raises_only_bind; [ apply raises_only_tell | intros _ ].
      apply raises_only_lift. apply HL. }
    apply raises_only_bind; [ | intros f; apply raises_only_ret ].
    unfold class_getattr.
    destruct (existsb _ _);
      [ apply raises_only_ret | now apply raises_only_raise ].
Qed.

(** ** What the methods read of the object *)

Section Blind.

Variable R : Search -> Search -> Prop.
Hypothesis R_same_query : forall s s', R s s' -> same_query s s'.

Lemma blind_ext {A : Type} (m m' : M A) :
  (forall st, m st = m' st) -> blind R m' -> blind R m.
Proof.
  intros E H s s' tr HR. destruct (H s s' tr HR) as (r & evs & H1 & H2).
  exists r, evs. now rewrite !E.
Qed.

Lemma blind_ret {A : Type} (a : A) : blind R (ret a).
Proof.
  intros s s' tr _. exists (Ok a), []. unfold ret. now rewrite app_nil_r.
Qed.

Lemma blind_raise {A : Type} (e : exn) : blind R (@raise A e).
Proof.
  intros s s' tr _. exists (Raise e), []. unfold raise. now rewrite app_nil_r.
Qed.

Lemma blind_lift {A : Type} (r : Res A) : blind R (lift r).
Proof.
  intros s s' tr _. exists r, []. unfold lift. now rewrite app_nil_r.
Qed.

Lemma blind_tell ev : blind R (tell ev).
Proof. intros s s' tr _. exists (Ok tt), [ev]. now split. Qed.

Lemma blind_of_option {A : Type} e (o : option A) : blind R (of_option e o).
Proof. destruct o; [ apply blind_ret | apply blind_raise ]. Qed.

Lemma blind_bind {A B : Type} (m : M A) (f : A -> M B) :
  blind R m -> (forall a, blind R (f a)) -> blind R (bind m f).
Proof.
  intros Hm Hf s s' tr HR.
  destruct (Hm s s' tr HR) as ([a | e] & evs & H1 & H2).
  - destruct (Hf a s s' (tr ++ evs) HR) as (r & evs' & H3 & H4).
    exists r, (evs ++ evs'). unfold bind.
    rewrite H1, H2, H3, H4. now rewrite app_assoc.
  - exists (Raise e), evs. unfold bind. now rewrite H1, H2.
Qed.

Lemma blind_try {A : Type} (body handler : M A) :
  blind R body -> blind R handler ->
  blind R (try_except_AttributeError body handler).
Proof.
  intros Hb Hh s s' tr HR.
  destruct (Hb s s' tr HR) as (r & evs & H1 & H2).
  destruct (Hh s s' (tr ++ evs) HR) as (r' & evs' & H3 & H4).
  unfold try_except_AttributeError. rewrite H1, H2.
  destruct r as [a | []];
    try (eexists _, evs; split; reflexivity).
  exists r', (evs ++ evs'). rewrite H3, H4. now rewrite app_assoc.
Qed.

(** Reading the object is allowed when what is done with it is the same
    on related objects. *)
Lemma blind_get_self {A : Type} (k : Search -> M A) :
  (forall s, blind R (k s)) ->
  (forall s s' st, R s s' -> k s st = k s' st) ->
  blind R (bind get_self k).
Proof.
  intros Hk Hext s s' tr HR.
  destruct (Hk s s s' tr HR) as (r & evs & H1 & H2).
  exists r, evs. unfold bind, get_self. simpl. split; [ exact H1 | ].
  now rewrite <- (Hext s s' _ HR).
Qed.

Lemma blind_py_get v k default : blind R (py_get v k default).
Proof. destruct v; simpl; try apply blind_raise. apply blind_ret. Qed.

Lemma blind_split_field_name v : blind R (split_field_name v).
Proof.
  destruct v; simpl; try apply blind_raise. apply blind_of_option.
Qed.

Lemma blind_call_load_class qualname : blind R (call_load_class qualname).
Proof.
  apply blind_bind; [ apply blind_tell | intros _; apply blind_lift ].
Qed.

Lemma blind_call_Criterion c a o op : blind R (call_Criterion c a o op).
Proof.
  apply blind_bind; [ apply blind_tell | intros _; apply blind_lift ].
Qed.

Lemma blind_eval_criterion_from field_value :
  blind R (eval_field_value field_value) ->
  forall field_name operator,
    blind R (eval_criterion field_name field_value operator).
Proof.
  intros H field_name operator.
  eapply blind_ext; [ intros st; apply eval_criterion_unfold | ].
  apply blind_bind; [ apply blind_split_field_name | ].
  intros [m_cls_name attr]. apply blind_get_self.
  - intros s. apply blind_bind; [ apply blind_call_load_class | intros m_cls ].
    apply blind_bind; [ exact H | intros operand ].
    apply blind_call_Criterion.
  - intros s s' st HR. destruct (R_same_query _ _ HR) as (_ & _ & _ & _ & HM).
    now rewrite HM.
Qed.

Lemma blind_eval_field_value field_value :
  blind R (eval_field_value field_value).
Proof.
  induction field_value as [ | b | n | s | l IH | d IH ]
    using value_rect_nested; try apply blind_ret.
  unfold eval_field_value; cbv beta iota.
  apply blind_bind; [ apply blind_of_option | intros inner_name ].
  unfold getitem at 1.
  destruct (dict_lookup d "field_value") as [inner_value | ] eqn:E;
    [ | apply (blind_raise (A := operand)) ].
  change (blind R
            (inner_operator <- getitem d "operator" ;;
             e <- eval_criterion inner_name inner_value inner_operator ;;
             ret (Compiled e))).
  apply blind_bind; [ apply blind_of_option | intros inner_operator ].
  apply blind_bind; [ | intros e; apply blind_ret ].
  apply blind_eval_criterion_from.
  exact (dict_lookup_Forall (fun v => blind R (eval_field_value v)) _ _ _ IH E).
Qed.

Lemma blind_eval_criterion field_name field_value operator :
  blind R (eval_criterion field_name field_value operator).
Proof. apply blind_eval_criterion_from, blind_eval_field_value. Qed.

Lemma blind_eval_criteria criteria : blind R (eval_criteria criteria).
Proof.
  unfold eval_criteria. generalize (@nil expr, @nil value).
  induction (match criteria with VList l => l | c => [c] end)
    as [ | c rest IH ]; intros acc; simpl.
  - apply blind_ret.
  - apply blind_bind; [ | intros acc'; apply IH ].
    destruct acc as [expressions error_fields]. unfold eval_criteria_step.
    apply blind_try.
    + repeat (apply blind_bind; [ apply blind_py_get | intros ? ]).
      apply blind_bind; [ apply blind_eval_criterion | intros e ].
      apply blind_ret.
    + apply blind_bind; [ apply blind_py_get | intros name ].
      apply blind_ret.
Qed.

Lemma blind_sequence build func items :
  Forall (fun v => blind R (build v)) items ->
  forall subqueries,
    blind R (build_sql_sequence_from build func items subqueries).
Proof.
  induction 1 as [ | v rest Hv _ IH ]; intros subqueries; simpl.
  - apply blind_ret.
  - apply blind_bind; [ exact Hv | intros c; apply IH ].
Qed.

Lemma blind_build_expressions_items filter_by :
  blind R (build_expressions filter_by) /\
  (forall l, filter_by = VList l ->
             Forall (fun v => blind R (build_expressions v)) l).
Proof.
  assert (S : forall (xs : list string),
             Forall (fun v => blind R (build_str v)) (map VStr xs)).
  { intros xs. apply Forall_forall. intros v _. apply blind_raise. }
  induction filter_by as [ | b | n | s | l IH | d IH ]
    using value_rect_nested;
    try (split; [ apply blind_raise | discriminate ]).
  - assert (F : Forall (fun v => blind R (build_expressions v)) l).
    { eapply Forall_impl; [ | exact IH ]. now intros v [H _]. }
    split.
    + simpl. now apply blind_sequence.
    + intros l' [= <-]. exact F.
  - split; [ | discriminate ].
    destruct d as [ | [operator node] rest ]; simpl; [ apply blind_raise | ].
    destruct (logical_operators operator) as [func | ].
    + inversion IH as [ | kv d' [_ Hnode] _ ]; subst. simpl in Hnode.
      destruct node; try apply blind_raise.
      * apply blind_sequence, S.
      * apply blind_sequence. now apply Hnode.
      * apply blind_sequence, S.
    + unfold build_leaf.
      apply blind_bind; [ apply blind_eval_criteria | ].
      intros [expressions error_fields].
      destruct (0 <? length error_fields)%nat;
        [ apply blind_raise | apply blind_ret ].
Qed.

Lemma blind_build_expressions filter_by : blind R (build_expressions filter_by).
Proof. apply blind_build_expressions_items. Qed.

Lemma blind_as_clause c : blind R (as_clause c).
Proof. destruct c; [ apply blind_ret | apply blind_raise ]. Qed.

Lemma blind_ordering_loop tokens :
  forall acc, blind R (ordering_loop tokens acc).
Proof.
  induction tokens as [ | token rest IH ]; intros acc; simpl.
  - apply blind_ret.
  - apply blind_bind; [ | intros e; apply IH ].
    unfold ordering_expression.
    apply blind_bind; [ apply blind_of_option | ].
    intros [m_cls_name field_name]. apply blind_get_self.
    + intros s. apply blind_bind; [ apply blind_call_load_class | ].
      intros m_cls. apply blind_bind; [ | intros f; apply blind_ret ].
      unfold class_getattr.
      destruct (existsb _ _); [ apply blind_ret | apply blind_raise ].
    + intros s s' st HR.
      destruct (R_same_query _ _ HR) as (_ & _ & _ & _ & HM). now rewrite HM.
Qed.

Lemma blind_query : blind R query.
Proof.
  unfold query. apply blind_get_self.
  - intros s. apply blind_bind;
      [ | intros q; apply blind_bind;
          [ apply blind_ordering_loop | intros obs; apply blind_ret ] ].
    destruct (filter_by s);
      repeat first
        [ apply blind_ret
        | apply blind_bind;
          [ first [ apply blind_py_get | apply blind_build_expressions
                  | apply blind_as_clause ]
          | intros ? ] ].
  - intros s s' st HR.
    destruct (R_same_query _ _ HR) as (H1 & H2 & H3 & H4 & _).
    now rewrite H1, H2, H3, H4.
Qed.

Hypothesis R_same_request : forall s s', R s s' -> same_request s s'.

Lemma blind_results : blind R results.
Proof.
  unfold results. apply blind_bind; [ apply blind_query | intros q ].
  apply blind_bind;
    [ apply blind_bind; [ apply blind_tell | intros _; apply blind_ret ] | ].
  intros count. apply blind_get_self.
  - intros s. apply blind_bind; [ | intros rows; apply blind_ret ].
    apply blind_bind; [ apply blind_tell | intros _; apply blind_ret ].
  - intros s s' st HR.
    destruct (R_same_request _ _ HR) as (_ & HA & HP). rewrite <- HA.
    destruct (all s) eqn:E; simpl; [ reflexivity | ].
    destruct (HP eq_refl) as [-> ->]. reflexivity.
Qed.

End Blind.

(** X14: [query] reads of the object the entities, the filter, the
    ordering, the session and the module, and nothing else: on two objects
    that agree on these, whatever their pagination and window size, it
    returns the same query after the same calls, and leaves both objects as
    they were. *)
Theorem query_ignores_pagination s s' tr :
  same_query s s' ->
  exists r evs,
    query (mkState s tr) = (r, mkState s (tr ++ evs)) /\
    query (mkState s' tr) = (r, mkState s' (tr ++ evs)).
Proof.
  intros H. exact (blind_query same_query (fun _ _ h => h) s s' tr H).
Qed.

(** X15: [window_size] is never read, and with [all] set neither are
    [page] and [per_page]: on two objects that differ in nothing else,
    [results] returns the same data and count after the same calls. *)
Theorem results_ignores_window_size s s' tr :
  same_request s s' ->
  exists r evs,
    results (mkState s tr) = (r, mkState s (tr ++ evs)) /\
    results (mkState s' tr) = (r, mkState s' (tr ++ evs)).
Proof.
  intros H.
  exact (blind_results same_request (fun _ _ h => proj1 h) (fun _ _ h => h)
           s s' tr H).
Qed.

(** ** Pages *)

(** [results] after a successful [query]: the count of the query, then the
    rows of the query, sliced unless [all] is set. *)
Lemma results_run st q st1 :
  query st = (Ok q, st1) ->
  let s := self st in
  let sliced :=
    if all s
    then q
    else Query_slice q (per_page s * (page s - 1)) (per_page s * page s) in
  results st =
    (Ok (mkResults (Query_rows sliced) (Z.of_nat (length (Query_rows q)))),
     mkState s (trace st1 ++ [EvCount q; EvAll sliced])).
Proof.
  intros HQ s sliced. destruct (query_shape _ _ _ _ _ HQ) as (_ & _ & _ & Hself).
  unfold results, bind. rewrite HQ.
  unfold Query_count, Query_all, bind, tell, ret, get_self. simpl.
  rewrite Hself. fold s. rewrite <- app_assoc. subst sliced.
  now destruct (all s).
Qed.

Lemma Query_rows_unsliced st q st1 :
  query st = (Ok q, st1) ->
  Query_rows q =
    fetch (session (self st)) (model_classes (self st))
          (q_criteria q) (q_order q).
Proof.
  intros HQ. destruct (query_shape _ _ _ _ _ HQ) as (HW & HS & HE & _).
  unfold Query_rows. now rewrite HW, HS, HE.
Qed.

Lemma Query_rows_sliced st q st1 start stop :
  query st = (Ok q, st1) ->
  Query_rows (Query_slice q start stop) =
    firstn (Z.to_nat (stop - start))
      (skipn (Z.to_nat start)
         (fetch (session (self st)) (model_classes (self st))
                (q_criteria q) (q_order q))).
Proof.
  intros HQ. destruct (query_shape _ _ _ _ _ HQ) as (_ & HS & HE & _).
  unfold Query_rows. simpl. now rewrite HS, HE.
Qed.

(** X16: without [all], for a page and a page size of at least 1, the
    page returned holds [per_page] rows, or the rows that are left from
    [(page - 1) * per_page] on when they are fewer, and never more rows
    than the count. *)
Theorem page_length st q st1 :
  query st = (Ok q, st1) ->
  all (self st) = false ->
  (1 <= page (self st))%Z ->
  (1 <= per_page (self st))%Z ->
  exists r st',
    results st = (Ok r, st') /\
    Z.of_nat (length (data r)) =
      Z.min (per_page (self st))
        (Z.max 0 (count r - (page (self st) - 1) * per_page (self st))) /\
    (Z.of_nat (length (data r)) <= count r)%Z.
Proof.
  intros HQ HA Hpage Hper. eexists _, _.
  split; [ apply (results_run _ _ _ HQ) | ].
  rewrite HA. simpl data. simpl count.
  rewrite (Query_rows_sliced _ _ _ _ _ HQ), (Query_rows_unsliced _ _ _ HQ).
  rewrite length_firstn, length_skipn.
  replace (per_page (self st) * page (self st) -
           per_page (self st) * (page (self st) - 1))%Z
    with (per_page (self st)) by ring.
  assert (0 <= per_page (self st) * (page (self st) - 1))%Z by nia.
  replace ((page (self st) - 1) * per_page (self st))%Z
    with (per_page (self st) * (page (self st) - 1))%Z by ring.
  split; lia.
Qed.

Lemma firstn_add {A : Type} (a b : nat) (l : list A) :
  firstn (a + b) l = firstn a l ++ firstn b (skipn a l).
Proof.
  revert l. induction a as [ | a IH ]; intros l; simpl.
  - reflexivity.
  - destruct l as [ | x l ]; simpl.
    + now rewrite firstn_nil.
    + now rewrite IH.
Qed.

Lemma concat_pages {A : Type} (k : nat) (l : list A) (n : nat) :
  concat (map (fun p => firstn k (skipn (p * k) l)) (seq 0 n)) =
  firstn (n * k) l.
Proof.
  induction n as [ | n IH ]; [ reflexivity | ].
  rewrite seq_S, map_app, concat_app, IH. simpl.
  rewrite app_nil_r. replace (k + n * k) with (n * k + k) by lia.
  now rewrite firstn_add.
Qed.

(** X17: the pages tile the rows of the query: without [all], for a page
    size of at least 1, the data of the pages 1 to [n], one after the
    other, are the first [n * per_page] rows of the query, none left out
    and none twice. *)
Theorem pages_tile_the_rows s tr q st1 n :
  query (mkState s tr) = (Ok q, st1) ->
  all s = false ->
  (1 <= per_page s)%Z ->
  concat (map (fun p =>
                 data_of (results (mkState (with_page (Z.of_nat (S p)) s) tr)))
              (seq 0 n)) =
  firstn (n * Z.to_nat (per_page s))
    (fetch (session s) (model_classes s) (q_criteria q) (q_order q)).
Proof.
  intros HQ HA Hper. rewrite <- concat_pages. f_equal.
  apply map_ext. intros p.
  remember (Z.of_nat (S p)) as P eqn:EP. rewrite Nat2Z.inj_succ in EP.
  assert (HS : same_query s (with_page P s)) by (repeat split).
  destruct (blind_query same_query (fun _ _ h => h) _ _ tr HS)
    as (r & evs & H1 & H2).
  rewrite HQ in H1. injection H1 as <- _.
  unfold data_of. rewrite (results_run _ _ _ H2). simpl fst. simpl data.
  simpl all. rewrite HA.
  rewrite (Query_rows_sliced _ _ _ _ _ H2). simpl.
  f_equal; [ | f_equal ].
  - f_equal. ring.
  - subst P. replace (Z.succ (Z.of_nat p) - 1)%Z with (Z.of_nat p) by lia.
    rewrite Z2Nat.inj_mul by lia. rewrite Nat2Z.id. apply Nat.mul_comm.
Qed.

(** X18: a [Search] built with the defaults of [__init__] loads no class
    and builds no criterion: it filters with the empty conjunction, counts
    the rows of its entities and returns the first ten of them. *)
Theorem default_search_returns_first_page
    session model_module model_classes window_size tr :
  let s := Search_init session model_module model_classes
                       None None None None None window_size in
  let q := mkQuery session model_classes [and_ []] [] None in
  let rows := fetch session model_classes [and_ []] [] in
  results (mkState s tr) =
    (Ok (mkResults (firstn 10 rows) (Z.of_nat (length rows))),
     mkState s (tr ++ [EvCount q; EvAll (Query_slice q 0 10)])).
Proof.
  intros s q rows. unfold results, bind. simpl.
  unfold Query_rows. simpl. now rewrite <- app_assoc.
Qed.

End Behaviour.

(** ** The further behaviour on the model package *)

Lemma registry_load_class_foreign registry qualname e :
  registry_load_class registry qualname = Raise e -> foreign e.
Proof.
  unfold registry_load_class. destruct (find _ registry); [ discriminate | ].
  now intros [= <-].
Qed.

Lemma eval_criterion_on_qualified_witness :
  PyStr.contains dot "name" = false /\
  eval_criterion Demo.load_class operator_table_eval
    (VStr (qualified "pkg.Entity" "name")) (VStr "a") (VStr "eq") Demo.idle =
  (m_cls <- call_load_class Demo.load_class (qualified "models" "pkg.Entity") ;;
   field_value' <- eval_field_value Demo.load_class operator_table_eval
                     (VStr "a") ;;
   call_Criterion operator_table_eval m_cls "name" field_value' (VStr "eq"))
    Demo.idle.
Proof.
  split; [ reflexivity | ].
  apply (eval_criterion_on_qualified Demo.load_class operator_table_eval
           "pkg.Entity" "name" eq_refl).
Defined.

Lemma undotted_field_name_raises_ValueError_witness :
  PyStr.contains dot "name" = false /\
  dict_lookup Cases.undotted "field_name" = Some (VStr "name") /\
  compile_criterion Demo.load_class operator_table_eval Cases.undotted
    Demo.idle = (Raise ValueError, Demo.idle).
Proof.
  split; [ reflexivity | ]. split; [ reflexivity | ].
  apply (undotted_field_name_raises_ValueError Demo.load_class
           operator_table_eval "name" Cases.undotted Demo.idle
           eq_refl eq_refl).
Defined.

Lemma nameless_criterion_is_invalid_field_witness :
  logical_operators "field_value" = None /\
  build_expressions Demo.load_class operator_table_eval
    (VDict Cases.nameless) Demo.idle =
    (Raise (SqlAlchemyException INVALID_FIELD [VStr "unknown"]), Demo.idle).
Proof.
  split; [ reflexivity | ].
  apply (nameless_criterion_is_invalid_field Demo.load_class
           operator_table_eval "field_value" (VStr "a")
           [("operator", VStr "eq")] Demo.idle eq_refl).
  intros name. discriminate.
Defined.

Lemma nested_criterion_missing_key_witness :
  split_at_last_dot "NotificationGroupMapping.recipient" =
    Some ("NotificationGroupMapping", "recipient") /\
  dict_lookup Cases.headless "operator" = None /\
  exists key,
    dict_lookup Cases.headless key = None /\
    eval_criterion Demo.load_class operator_table_eval
      (VStr "NotificationGroupMapping.recipient") (VDict Cases.headless)
      (VStr "has") Demo.idle =
      (Raise (KeyError key),
       mkState (self Demo.idle)
         [EvLoadClass "models.NotificationGroupMapping"]).
Proof.
  split; [ reflexivity | ]. split; [ reflexivity | ].
  apply (nested_criterion_missing_key Demo.load_class operator_table_eval
           "NotificationGroupMapping.recipient" "NotificationGroupMapping"
           "recipient" Demo.NotificationGroupMapping Cases.headless
           (VStr "has") Demo.idle eq_refl eq_refl).
  right. right. reflexivity.
Defined.

Lemma nested_failure_names_enclosing_field_witness :
  eval_criterion Demo.load_class operator_table_eval
    (VStr "NotificationGroupMapping.missing") (VStr "a") (VStr "eq")
    (mkState (self Demo.idle) [EvLoadClass "models.NotificationGroup"]) =
    (Raise AttributeError, Cases.after_bad_inner) /\
  build_expressions Demo.load_class operator_table_eval
    (VDict Cases.bad_inner) Demo.idle =
    (Raise (SqlAlchemyException INVALID_FIELD
              [VStr "NotificationGroup.group_mappings"]),
     Cases.after_bad_inner).
Proof.
  split; [ reflexivity | ].
  apply (nested_failure_names_enclosing_field Demo.load_class
           operator_table_eval
           "field_name" (VStr "NotificationGroup.group_mappings")
           (tl Cases.bad_inner)
           "NotificationGroup.group_mappings" "NotificationGroup"
           "group_mappings" Demo.NotificationGroup
           [("field_name", VStr "NotificationGroupMapping.missing");
            ("field_value", VStr "a"); ("operator", VStr "eq")]
           (VStr "NotificationGroupMapping.missing") (VStr "a") (VStr "eq")
           Demo.idle Cases.after_bad_inner); reflexivity.
Defined.

Lemma combinator_stops_at_first_failure_witness :
  compile_children (build_expressions Demo.load_class operator_table_eval)
    [Cases.good] Demo.idle =
    (Ok [Listed [Cases.good_predicate]], Cases.after_good) /\
  build_expressions Demo.load_class operator_table_eval Cases.bad
    Cases.after_good =
    (Raise (SqlAlchemyException INVALID_FIELD [VStr "Entity.bad1"]),
     Cases.after_good_bad) /\
  build_sql_sequence Demo.load_class operator_table_eval
    (VList ([Cases.good] ++ Cases.bad :: [Cases.good])) or_ Demo.idle =
    (Raise (SqlAlchemyException INVALID_FIELD [VStr "Entity.bad1"]),
     Cases.after_good_bad).
Proof.
  split; [ reflexivity | ]. split; [ reflexivity | ].
  apply (combinator_stops_at_first_failure Demo.load_class operator_table_eval
           [Cases.good] Cases.bad [Cases.good] or_ Demo.idle
           [Listed [Cases.good_predicate]] Cases.after_good
           (SqlAlchemyException INVALID_FIELD [VStr "Entity.bad1"])
           Cases.after_good_bad); reflexivity.
Defined.

Lemma build_expressions_result_shape_witness :
  build_expressions Demo.load_class operator_table_eval Cases.good Demo.idle =
    (Ok (Listed [Cases.good_predicate]), Cases.after_good) /\
  exists e, Listed [Cases.good_predicate] = Listed [e].
Proof.
  split; [ reflexivity | ].
  apply (build_expressions_result_shape Demo.load_class operator_table_eval
           Cases.good Demo.idle (Listed [Cases.good_predicate])
           Cases.after_good eq_refl).
Defined.

Lemma combinator_has_one_clause_per_child_witness :
  build_sql_sequence Demo.load_class operator_table_eval
    (VList [Cases.good; Cases.good]) or_ Demo.idle =
    (Ok (Single (or_ [Cases.good_predicate; Cases.good_predicate])),
     Cases.after_two_good) /\
  exists items clauses,
    py_iter (VList [Cases.good; Cases.good]) Demo.idle =
      (Ok items, Demo.idle) /\
    Single (or_ [Cases.good_predicate; Cases.good_predicate]) =
      Single (or_ clauses) /\
    length clauses = length items.
Proof.
  split; [ reflexivity | ].
  apply (combinator_has_one_clause_per_child Demo.load_class
           operator_table_eval (VList [Cases.good; Cases.good]) or_ Demo.idle
           (Single (or_ [Cases.good_predicate; Cases.good_predicate]))
           Cases.after_two_good eq_refl).
Defined.

Lemma eval_criteria_partitions_witness :
  Forall is_mapping Demo.siblings /\
  eval_criteria Demo.load_class operator_table_eval (VList Demo.siblings)
    Demo.idle =
    (Ok ([Cases.good_predicate], [VStr "Entity.bad1"; VStr "Entity.bad2"]),
     Cases.after_siblings) /\
  length [Cases.good_predicate] +
  length [VStr "Entity.bad1"; VStr "Entity.bad2"] = length Demo.siblings.
Proof.
  assert (F : Forall is_mapping Demo.siblings)
    by (repeat constructor).
  split; [ exact F | ]. split; [ reflexivity | ].
  apply (eval_criteria_partitions Demo.load_class operator_table_eval
           Demo.siblings Demo.idle [Cases.good_predicate]
           [VStr "Entity.bad1"; VStr "Entity.bad2"] Cases.after_siblings
           F eq_refl).
Defined.

Lemma eval_criteria_catches_AttributeError_witness :
  Forall is_mapping Demo.siblings /\
  raises_only (fun e => e <> AttributeError)
    (eval_criteria Demo.load_class operator_table_eval (VList Demo.siblings)).
Proof.
  assert (F : Forall is_mapping Demo.siblings)
    by (repeat constructor).
  split; [ exact F | ].
  apply (eval_criteria_catches_AttributeError Demo.load_class
           operator_table_eval Demo.siblings F).
Defined.

Lemma top_level_criterion_mapping_is_ignored_witness :
  filter_by (self (Demo.search Cases.bad [] 1 10 false)) =
    VDict Cases.bad_entries /\
  dict_lookup Cases.bad_entries "or" = None /\
  dict_lookup Cases.bad_entries "and" = None /\
  query Demo.load_class operator_table_eval
    (Demo.search Cases.bad [] 1 10 false) =
    (Ok Demo.empty_query, Demo.search Cases.bad [] 1 10 false).
Proof.
  split; [ reflexivity | ]. split; [ reflexivity | ]. split; [ reflexivity | ].
  destruct (top_level_criterion_mapping_is_ignored Demo.load_class
              operator_table_eval (Demo.search Cases.bad [] 1 10 false)
              Cases.bad_entries eq_refl eq_refl eq_refl) as [E _].
  rewrite E. reflexivity.
Defined.

Lemma query_orders_by_tokens_witness :
  query Demo.load_class operator_table_eval Cases.ordered =
    (Ok Cases.ordered_query, Cases.after_ordered) /\
  Forall2 (fun token e =>
             ord_dir e =
               (if PyStr.startswith dash token then desc else asc) /\
             exists entity,
               split_at_last_dot (PyStr.replace_first dash token) =
                 Some (entity, ord_field e) /\
               Demo.load_class
                 (qualified (model_module (self Cases.ordered)) entity) =
                 Ok (ord_cls e) /\
               In (ord_field e) (cls_attrs (ord_cls e)))
          (order_by (self Cases.ordered)) (q_order Cases.ordered_query).
Proof.
  split; [ reflexivity | ].
  apply (query_orders_by_tokens Demo.load_class operator_table_eval
           Cases.ordered Cases.ordered_query Cases.after_ordered eq_refl).
Defined.

Lemma ordering_raises_no_invalid_field_witness :
  (forall qualname e, Demo.load_class qualname = Raise e -> foreign e) /\
  raises_only foreign
    (ordering_loop Demo.load_class ["Entity.missing"; "-name"] []).
Proof.
  assert (H : forall qualname e,
             Demo.load_class qualname = Raise e -> foreign e)
    by (intros qualname e; apply registry_load_class_foreign).
  split; [ exact H | ].
  apply (ordering_raises_no_invalid_field Demo.load_class
           ["Entity.missing"; "-name"] [] H).
Defined.

Lemma query_ignores_pagination_witness :
  same_query (self (Demo.search (VList Demo.siblings) [] 1 10 false))
             (self (Demo.search (VList Demo.siblings) [] 3 5 true)) /\
  exists r evs,
    query Demo.load_class operator_table_eval
      (Demo.search (VList Demo.siblings) [] 1 10 false) =
      (r, mkState (self (Demo.search (VList Demo.siblings) [] 1 10 false))
            ([] ++ evs)) /\
    query Demo.load_class operator_table_eval
      (Demo.search (VList Demo.siblings) [] 3 5 true) =
      (r, mkState (self (Demo.search (VList Demo.siblings) [] 3 5 true))
            ([] ++ evs)).
Proof.
  assert (H : same_query
                (self (Demo.search (VList Demo.siblings) [] 1 10 false))
                (self (Demo.search (VList Demo.siblings) [] 3 5 true)))
    by (repeat split).
  split; [ exact H | ].
  apply (query_ignores_pagination Demo.load_class operator_table_eval
           _ _ [] H).
Defined.

Lemma results_ignores_window_size_witness :
  same_request (self Demo.idle) Cases.windowed /\
  exists r evs,
    results Demo.load_class operator_table_eval Demo.idle =
      (r, mkState (self Demo.idle) ([] ++ evs)) /\
    results Demo.load_class operator_table_eval (mkState Cases.windowed []) =
      (r, mkState Cases.windowed ([] ++ evs)).
Proof.
  assert (H : same_request (self Demo.idle) Cases.windowed)
    by (repeat split).
  split; [ exact H | ].
  apply (results_ignores_window_size Demo.load_class operator_table_eval
           _ _ [] H).
Defined.

Lemma page_length_witness :
  query Demo.load_class operator_table_eval
    (Demo.search (VList []) [] 3 10 false) =
    (Ok Demo.unfiltered_query, Demo.search (VList []) [] 3 10 false) /\
  exists r st',
    results Demo.load_class operator_table_eval
      (Demo.search (VList []) [] 3 10 false) = (Ok r, st') /\
    Z.of_nat (length (data r)) = Z.min 10 (Z.max 0 (count r - (3 - 1) * 10)) /\
    (Z.of_nat (length (data r)) <= count r)%Z.
Proof.
  split; [ reflexivity | ].
  apply (page_length Demo.load_class operator_table_eval
           (Demo.search (VList []) [] 3 10 false) Demo.unfiltered_query
           (Demo.search (VList []) [] 3 10 false) eq_refl eq_refl);
    simpl; lia.
Defined.

Lemma pages_tile_the_rows_witness :
  query Demo.load_class operator_table_eval
    (Demo.search (VList []) [] 1 10 false) =
    (Ok Demo.unfiltered_query, Demo.search (VList []) [] 1 10 false) /\
  concat (map (fun p =>
                 data_of (results Demo.load_class operator_table_eval
                            (mkState
                               (with_page (Z.of_nat (S p))
                                  (self (Demo.search (VList []) [] 1 10 false)))
                               [])))
              (seq 0 3)) =
  firstn (3 * 10) Demo.table.
Proof.
  split; [ reflexivity | ].
  apply (pages_tile_the_rows Demo.load_class operator_table_eval
           (self (Demo.search (VList []) [] 1 10 false)) []
           Demo.unfiltered_query (Demo.search (VList []) [] 1 10 false) 3
           eq_refl eq_refl).
  simpl. lia.
Defined.

Lemma sign_only_turns_the_direction_witness :
  PyStr.contains dash "Entity.created_at" = false /\
  ordering_expression Demo.load_class "-Entity.created_at" Demo.idle =
    (Ok (mkOrder Demo.Entity "created_at" desc),
     mkState (self Demo.idle) [EvLoadClass "models.Entity"]).
Proof.
  split; [ reflexivity | ].
  destruct (sign_only_turns_the_direction Demo.load_class
              "Entity.created_at" Demo.idle eq_refl) as [E _].
  change "-Entity.created_at" with (String dash "Entity.created_at").
  rewrite E. reflexivity.
Defined.
